(** * bhttp: the attempt loop [exec] and the single-attempt executor [do]

    A shallow embedding of [bhttp.go] and [options.go].

    - Go's [int] is modelled as [Z] with 64-bit two's complement wrap-around
      written out ([Int.wrap]).
    - The collaborators of the package (the HTTP transport, the token-bucket
      limiter of golang.org/x/time/rate and encoding/json) are not part of
      the package: they are an oracle record [Env].  The k-th call of
      [httpClient.Do] during a run gets the answer [client_Do env k], as the
      handlers of the test suite answer by hit number.
    - Pointers to [Options] and [RetryConfig] are locations into a store [Heap]
      (two [gmap]s), because [exec] writes through them.
    - Every call to a collaborator is recorded in a ghost trace of [Event]s,
      and so is every call of [do] by [exec], with the retry codes it gets
      and the result it returns, so that "the request was sent n times",
      "no decode was attempted" or "no try follows an error" are statements
      about the trace.
    - The destination of a decode is kept as far as [reflect] and the nil
      test look at it; the value decoded into it is the codec's business and
      lives outside the store of the options. *)

From stdpp Require Import gmap strings list fin_maps pretty.

Open Scope Z_scope.

(** ** Go's [int]

    64 bits wide, as on the platforms the package is built for by default;
    arithmetic wraps around silently. *)

Module Int.

Definition MaxInt : Z := 2 ^ 63 - 1.
Definition MinInt : Z := - 2 ^ 63.

(** Two's complement reduction of a mathematical integer to 64 bits. *)
Definition wrap (z : Z) : Z := (z + 2 ^ 63) `mod` 2 ^ 64 - 2 ^ 63.

Definition add (a b : Z) : Z := wrap (a + b).

End Int.

(** ** Errors

    One constructor per place where the package builds an error, plus
    [External] for the error values that collaborators hand back and that the
    package returns or wraps as they are; of those only the message is kept. *)

Inductive error : Type :=
  | errors_New (msg : string)
      (* errors.New("nil http client"), errors.New("nil request") *)
  | External (msg : string)
      (* an error of the transport, the body stream, the limiter or json *)
  | InvalidDestination (ty : string)
      (* "dest must be a non-nil pointer. retrieved dest type: %T" *)
  | RateLimitWaitFailed (cause : error)
      (* "rate limiter wait failed: %w" *)
  | UnexpectedStatus (expected : list Z) (got : Z) (body : string)
      (* "expected status code(s) %+v but got %d. body: %s" *)
  | DecodeError (cause : error) (body : string)
      (* "fail to unmarshal response body into dest. err: %w. body: %s" *)
  | RetriesExhausted (attempts : Z) (cause : error).
      (* "retries exhausted after %d attempt(s): %w" *)

(** [%+v] of a [[]int]: the elements in decimal, separated by one space, in
    square brackets. *)
Fixpoint fmt_ints_body (l : list Z) : string :=
  match l with
  | [] => ""
  | [x] => pretty x
  | x :: rest => pretty x +:+ " " +:+ fmt_ints_body rest
  end.

Definition fmt_ints (l : list Z) : string := "[" +:+ fmt_ints_body l +:+ "]".

(** The [Error()] method: the message of an error. *)
Fixpoint Error (e : error) : string :=
  match e with
  | errors_New msg => msg
  | External msg => msg
  | InvalidDestination ty =>
      "dest must be a non-nil pointer. retrieved dest type: " +:+ ty
  | RateLimitWaitFailed cause =>
      "rate limiter wait failed: " +:+ Error cause
  | UnexpectedStatus expected got body =>
      "expected status code(s) " +:+ fmt_ints expected +:+ " but got "
        +:+ pretty got +:+ ". body: " +:+ body
  | DecodeError cause body =>
      "fail to unmarshal response body into dest. err: " +:+ Error cause
        +:+ ". body: " +:+ body
  | RetriesExhausted attempts cause =>
      "retries exhausted after " +:+ pretty attempts +:+ " attempt(s): "
        +:+ Error cause
  end.

(** [errors.Unwrap]: the error behind a [%w] verb. *)
Definition Unwrap (e : error) : option error :=
  match e with
  | RateLimitWaitFailed cause => Some cause
  | DecodeError cause _ => Some cause
  | RetriesExhausted _ cause => Some cause
  | _ => None
  end.

(** [strings.Contains], as a proposition. *)
Definition Contains (s sub : string) : Prop :=
  ∃ pre post : string, s = pre +:+ sub +:+ post.

(** ** Requests, responses, destinations *)

Definition loc : Type := positive.

(** A [context.Context] as far as the package looks at it: what [ctx.Err()]
    answers when the call starts ([None] for a live context). *)
Record Context : Type := mkContext { ctx_Err : option string }.

Definition context_Background : Context := {| ctx_Err := None |}.

Record Request : Type := mkRequest {
  Method : string;
  URL : string;
  ctx : option Context
}.

(** The [Context] method of a request: the request's context, or the background
    context when none was set.  The result is an interface value, hence the
    [option]; it is never nil. *)
Definition Request_Context (r : Request) : option Context :=
  match ctx r with
  | Some c => Some c
  | None => Some context_Background
  end.

(** A response as [do] uses it: the status code and what
    [io.ReadAll(resp.Body)] yields. *)
Record Response : Type := mkResponse {
  StatusCode : Z;
  Body : string + string
}.

Inductive Client : Type := HTTPClient (transport : positive).
Inductive Limiter : Type := RateLimiter_at (p : loc).

Record bHTTP : Type := mkbHTTP { client : option Client }.

(** The value an [any] holds after [json.Unmarshal(body, &raw)]. *)
#[warnings="-register-all"]
Inductive any : Type :=
  | JNull
  | JBool (b : bool)
  | JNumber (literal : string)
  | JString (s : string)
  | JArray (elems : list any)
  | JObject (fields : list (string * any)).

(** The [dest any] argument, as [reflect] and [==] see it. *)
Inductive Dest : Type :=
  | DestNil                          (* the nil interface *)
  | DestValue (ty : string)          (* a value whose kind is not Pointer *)
  | DestNilPtr (ty : string)         (* a typed nil pointer *)
  | DestPtr (ty : string) (p : loc). (* a non-nil pointer *)

Inductive Kind : Type := Invalid | Pointer | OtherKind.

Definition reflect_Kind (dest : Dest) : Kind :=
  match dest with
  | DestNil => Invalid
  | DestValue _ => OtherKind
  | DestNilPtr _ | DestPtr _ _ => Pointer
  end.

Definition Kind_eqb (a b : Kind) : bool :=
  match a, b with
  | Invalid, Invalid | Pointer, Pointer | OtherKind, OtherKind => true
  | _, _ => false
  end.

(** [rv.IsNil()], only called on pointers. *)
Definition reflect_IsNil (dest : Dest) : bool :=
  match dest with
  | DestNilPtr _ => true
  | _ => false
  end.

(** [%T] of the destination. *)
Definition fmt_T (dest : Dest) : string :=
  match dest with
  | DestNil => "<nil>"
  | DestValue ty | DestNilPtr ty | DestPtr ty _ => ty
  end.

(** [dest == nil]: true of the nil interface only. *)
Definition Dest_is_nil (dest : Dest) : bool :=
  match dest with
  | DestNil => true
  | _ => false
  end.

(** ** The collaborators *)

Record Env : Type := mkEnv {
  (** the answer of the k-th [httpClient.Do(req)] of the run *)
  client_Do : nat → Client → Request → Response + string;
  (** the answer of the k-th [rateLimiter.Wait(ctx)] of the run *)
  limiter_Wait : nat → Limiter → Context → option string;
  (** [json.Unmarshal(body, &raw)] with [raw] an [any] *)
  json_Unmarshal_any : string → any + string;
  (** [json.MarshalIndent] of [raw] with a tab as indent *)
  json_MarshalIndent : any → string + string;
  (** [json.Unmarshal(body, dest)] *)
  json_Unmarshal : string → Dest → option string
}.


(** ** The ghost trace *)

Inductive Event : Type :=
  | EvTry (try : Z) (retryCodes : list Z)  (* [exec] calls [do] *)
  | EvWait                                 (* rateLimiter.Wait(reqCtx) *)
  | EvSend                                 (* httpClient.Do(req) *)
  | EvReadAll                              (* io.ReadAll(resp.Body) *)
  | EvClose                                (* the deferred resp.Body.Close() *)
  | EvUnmarshalAny                         (* json.Unmarshal(body, &raw) *)
  | EvMarshalIndent                        (* json.MarshalIndent(raw, ..) *)
  | EvUnmarshal                            (* json.Unmarshal(body, dest) *)
  | EvReturn (shouldRetry : bool) (err : option error). (* [do] returns *)

Definition Trace : Type := list Event.

Definition is_send (e : Event) : bool :=
  match e with EvSend => true | _ => false end.
Definition is_wait (e : Event) : bool :=
  match e with EvWait => true | _ => false end.
Definition is_try (e : Event) : bool :=
  match e with EvTry _ _ => true | _ => false end.
Definition is_json (e : Event) : bool :=
  match e with
  | EvUnmarshalAny | EvMarshalIndent | EvUnmarshal => true
  | _ => false
  end.

Definition count (p : Event → bool) (tr : Trace) : nat :=
  length (List.filter p tr).

Definition nsends : Trace → nat := count is_send.
Definition nwaits : Trace → nat := count is_wait.
Definition ntries : Trace → nat := count is_try.

(** ** [do]: one request/response cycle *)

Definition http_StatusOK : Z := 200.

(** [slices.Contains] on a [[]int]. *)
Definition slices_Contains (s : list Z) (v : Z) : bool :=
  existsb (Z.eqb v) s.

(** Lines 262-268: the body as error messages show it. *)
Definition errRespBody (env : Env) (body : string) : string :=
  match json_Unmarshal_any env body with
  | inl raw =>
      match json_MarshalIndent env raw with
      | inl pretty => pretty
      | inr _ => body
      end
  | inr _ => body
  end.

(** The events of lines 262-268. *)
Definition errRespBody_events (env : Env) (body : string) : Trace :=
  match json_Unmarshal_any env body with
  | inl _ => [EvUnmarshalAny; EvMarshalIndent]
  | inr _ => [EvUnmarshalAny]
  end.

(** Lines 253-282: what [do] does with a response. *)
Definition do_response (env : Env) (resp : Response) (dest : Dest)
    (expectedStatusCodes shouldRetryStatusCodes : list Z) (tr : Trace)
    : (bool * option error) * Trace :=
  let tr := tr ++ [EvReadAll] in
  match Body resp with
  | inr err => ((false, Some (External err)), tr)
  | inl body =>
      if slices_Contains shouldRetryStatusCodes (StatusCode resp) then
        ((true, None), tr)
      else
        let text := errRespBody env body in
        let tr := tr ++ errRespBody_events env body in
        if negb (slices_Contains expectedStatusCodes (StatusCode resp)) then
          ((false,
            Some (UnexpectedStatus expectedStatusCodes (StatusCode resp) text)),
           tr)
        else if Dest_is_nil dest then
          ((false, None), tr)
        else
          let tr := tr ++ [EvUnmarshal] in
          match json_Unmarshal env body dest with
          | Some err => ((false, Some (DecodeError (External err) text)), tr)
          | None => ((false, None), tr)
          end
  end.

Definition do (env : Env) (httpClient : option Client)
    (rateLimiter : option Limiter) (req : option Request) (dest : Dest)
    (expectedStatusCodes shouldRetryStatusCodes : list Z) (tr : Trace)
    : (bool * option error) * Trace :=
  match httpClient with
  | None => ((false, Some (errors_New "nil http client")), tr)
  | Some cl =>
  match req with
  | None => ((false, Some (errors_New "nil request")), tr)
  | Some r =>
      let expectedStatusCodes :=
        if (length expectedStatusCodes =? 0)%nat then [http_StatusOK]
        else expectedStatusCodes in
      let reqCtx := Request_Context r in
      let waited :=
        match rateLimiter, reqCtx with
        | Some lim, Some c =>
            (limiter_Wait env (nwaits tr) lim c, tr ++ [EvWait])
        | _, _ => (None, tr)
        end in
      match waited with
      | (Some err, tr) =>
          ((false, Some (RateLimitWaitFailed (External err))), tr)
      | (None, tr) =>
          match client_Do env (nsends tr) cl r with
          | inr err => ((false, Some (External err)), tr ++ [EvSend])
          | inl resp =>
              let '(res, tr) :=
                do_response env resp dest expectedStatusCodes
                  shouldRetryStatusCodes (tr ++ [EvSend]) in
              (res, tr ++ [EvClose])
          end
      end
  end
  end.

(** ** Options and the store *)

Record RetryConfig : Type := mkRetryConfig {
  Attempts : Z;
  RetryStatusCodes : list Z
}.

Record Options : Type := mkOptions {
  ExpectedStatusCodes : list Z;
  Retry : option loc;
  RateLimiter : option Limiter
}.

Record Heap : Type := mkHeap {
  optionsH : gmap loc Options;
  retryH : gmap loc RetryConfig
}.

(** [new(Options)] and [new(RetryConfig)]: a fresh cell holding the zero value. *)
Definition new_Options (h : Heap) : loc * Heap :=
  let l := fresh (dom (optionsH h)) in
  (l, {| optionsH := <[l := mkOptions [] None None]> (optionsH h);
         retryH := retryH h |}).

Definition new_RetryConfig (h : Heap) : loc * Heap :=
  let l := fresh (dom (retryH h)) in
  (l, {| optionsH := optionsH h;
         retryH := <[l := mkRetryConfig 0 []]> (retryH h) |}).

(** Dereferencing [opts] and [opts.Retry]. *)
Definition load_Options (h : Heap) (opts : loc) : option Options :=
  optionsH h !! opts.

Definition load_Retry (h : Heap) (opts : loc) : option (loc * RetryConfig) :=
  o ← optionsH h !! opts;
  r ← Retry o;
  rc ← retryH h !! r;
  Some (r, rc).

Definition store_Options (h : Heap) (opts : loc) (o : Options) : Heap :=
  {| optionsH := <[opts := o]> (optionsH h); retryH := retryH h |}.

Definition store_Retry (h : Heap) (r : loc) (rc : RetryConfig) : Heap :=
  {| optionsH := optionsH h; retryH := <[r := rc]> (retryH h) |}.

(** ** [exec]: the attempt loop *)

(** Lines 185-195.  [None] when a pointer does not point into the store,
    which Go rules out. *)
Definition normalize (opts : option loc) (h : Heap) : option (loc * Heap) :=
  let '(opts, h) :=
    match opts with
    | None => new_Options h
    | Some l => (l, h)
    end in
  o ← load_Options h opts;
  let h :=
    match Retry o with
    | None =>
        let '(r, h) := new_RetryConfig h in
        store_Options h opts
          (mkOptions (ExpectedStatusCodes o) (Some r) (RateLimiter o))
    | Some _ => h
    end in
  '(r, rc) ← load_Retry h opts;
  let h :=
    if Attempts rc <? 0 then
      store_Retry h r (mkRetryConfig 0 (RetryStatusCodes rc))
    else h in
  Some (opts, h).

(** Lines 199-226.  [fuel] bounds the number of iterations; [None] when it
    runs out or a pointer dangles. *)
Fixpoint exec_loop (env : Env) (c : bHTTP) (req : option Request)
    (dest : Dest) (h : Heap) (opts : loc) (totalTries : Z)
    (fuel : nat) (try : Z) (tr : Trace) : option (option error * Trace) :=
  if try <=? totalTries then
    match fuel with
    | O => None
    | S fuel =>
        o ← load_Options h opts;
        '(_, rc) ← load_Retry h opts;
        let retryCodes :=
          if try =? totalTries then [] else RetryStatusCodes rc in
        let '((shouldRetry, err), tr) :=
          do env (client c) (RateLimiter o) req dest
            (ExpectedStatusCodes o) retryCodes
            (tr ++ [EvTry try retryCodes]) in
        let tr := tr ++ [EvReturn shouldRetry err] in
        match err with
        | Some err =>
            if 0 <? Attempts rc then
              Some (Some (RetriesExhausted (Attempts rc) err), tr)
            else Some (Some err, tr)
        | None =>
            if negb shouldRetry then Some (None, tr)
            else
              exec_loop env c req dest h opts totalTries
                fuel (Int.add try 1) tr
        end
    end
  else Some (None, tr).

Definition exec (env : Env) (c : bHTTP) (req : option Request) (dest : Dest)
    (validateDest : bool) (opts : option loc) (h : Heap) (tr : Trace)
    : option (option error * Heap * Trace) :=
  if validateDest
     && (negb (Kind_eqb (reflect_Kind dest) Pointer) || reflect_IsNil dest)
  then Some (Some (InvalidDestination (fmt_T dest)), h, tr)
  else
    '(opts, h) ← normalize opts h;
    '(_, rc) ← load_Retry h opts;
    let totalTries := Int.add 1 (Attempts rc) in
    '(err, tr) ←
      exec_loop env c req dest h opts totalTries
        (Z.to_nat totalTries) 1 tr;
    Some (err, h, tr).

(** The four call shapes of the [BHTTP] interface. *)
Definition Do env c req h tr := exec env c req DestNil false None h tr.
Definition DoWithOptions env c req opts h tr :=
  exec env c req DestNil false opts h tr.
Definition DoAndUnwrap env c req dest h tr :=
  exec env c req dest true None h tr.
Definition DoAndUnwrapWithOptions env c req dest opts h tr :=
  exec env c req dest true opts h tr.

(** ** Vocabulary of the properties *)

(** Events of [exec] itself, as opposed to calls to collaborators. *)
Definition is_ctrl (e : Event) : bool :=
  match e with
  | EvTry _ _ | EvReturn _ _ => true
  | _ => false
  end.

(** The events of the limiter wait of one attempt. *)
Definition wait_events (rateLimiter : option Limiter) : Trace :=
  match rateLimiter with
  | Some _ => [EvWait]
  | None => []
  end.

(** The limiter lets the attempt that starts at trace [tr] through. *)
Definition wait_granted (env : Env) (rateLimiter : option Limiter)
    (rq : Request) (tr : Trace) : Prop :=
  ∀ lim c, rateLimiter = Some lim → Request_Context rq = Some c →
           limiter_Wait env (nwaits tr) lim c = None.

(** The expected codes after the default of lines 236-238. *)
Definition effective_expected (codes : list Z) : list Z :=
  if (length codes =? 0)%nat then [http_StatusOK] else codes.

(** Lines 262-282: the error, if any, that [do] returns for a response that
    it has read and that is not retry-classified. *)
Definition verdict (env : Env) (dest : Dest) (expected : list Z)
    (status : Z) (body : string) : option error :=
  if negb (slices_Contains expected status) then
    Some (UnexpectedStatus expected status (errRespBody env body))
  else if Dest_is_nil dest then None
  else
    match json_Unmarshal env body dest with
    | Some msg => Some (DecodeError (External msg) (errRespBody env body))
    | None => None
    end.

(** The retry codes [exec] hands to [do] on a given try (lines 200-204). *)
Definition try_codes (rc : RetryConfig) (totalTries try : Z) : list Z :=
  if try =? totalTries then [] else RetryStatusCodes rc.

(** The error [exec] returns for an error of [do] (lines 214-219). *)
Definition wrap_error (rc : RetryConfig) (e : error) : error :=
  if 0 <? Attempts rc then RetriesExhausted (Attempts rc) e else e.

(** The runs of the loop from a given try on: the error returned and the
    events added to the trace. *)
Inductive run (env : Env) (c : bHTTP) (req : option Request) (dest : Dest)
    (o : Options) (rc : RetryConfig) (totalTries : Z)
    : Z → Trace → option error → Trace → Prop :=
  | run_exit try tr :
      totalTries < try →
      run env c req dest o rc totalTries try tr None []
  | run_fail try tr sr e dev :
      try ≤ totalTries →
      do env (client c) (RateLimiter o) req dest (ExpectedStatusCodes o)
         (try_codes rc totalTries try)
         (tr ++ [EvTry try (try_codes rc totalTries try)])
        = ((sr, Some e), (tr ++ [EvTry try (try_codes rc totalTries try)]) ++ dev) →
      run env c req dest o rc totalTries try tr (Some (wrap_error rc e))
        (EvTry try (try_codes rc totalTries try) :: dev ++ [EvReturn sr (Some e)])
  | run_break try tr dev :
      try ≤ totalTries →
      do env (client c) (RateLimiter o) req dest (ExpectedStatusCodes o)
         (try_codes rc totalTries try)
         (tr ++ [EvTry try (try_codes rc totalTries try)])
        = ((false, None), (tr ++ [EvTry try (try_codes rc totalTries try)]) ++ dev) →
      run env c req dest o rc totalTries try tr None
        (EvTry try (try_codes rc totalTries try) :: dev ++ [EvReturn false None])
  | run_retry try tr dev err evs :
      try < totalTries →
      do env (client c) (RateLimiter o) req dest (ExpectedStatusCodes o)
         (try_codes rc totalTries try)
         (tr ++ [EvTry try (try_codes rc totalTries try)])
        = ((true, None), (tr ++ [EvTry try (try_codes rc totalTries try)]) ++ dev) →
      run env c req dest o rc totalTries (try + 1)
        (tr ++ EvTry try (try_codes rc totalTries try) :: dev ++ [EvReturn true None])
        err evs →
      run env c req dest o rc totalTries try tr err
        (EvTry try (try_codes rc totalTries try) :: dev ++ EvReturn true None :: evs).

(** What the caller configured, read through [opts] when the call starts.
    [None] when a pointer does not point into the store. *)
Record Config : Type := mkConfig {
  cfg_expected : list Z;
  cfg_attempts : Z;
  cfg_retryCodes : list Z;
  cfg_limiter : option Limiter
}.

Definition configured (h : Heap) (opts : option loc) : option Config :=
  match opts with
  | None => Some (mkConfig [] 0 [] None)
  | Some l =>
      o ← optionsH h !! l;
      match Retry o with
      | None => Some (mkConfig (ExpectedStatusCodes o) 0 [] (RateLimiter o))
      | Some r =>
          rc ← retryH h !! r;
          Some (mkConfig (ExpectedStatusCodes o) (Attempts rc)
                  (RetryStatusCodes rc) (RateLimiter o))
      end
  end.

(** The destination passes the check of lines 179-184. *)
Definition dest_accepted (validateDest : bool) (dest : Dest) : bool :=
  negb (validateDest
        && (negb (Kind_eqb (reflect_Kind dest) Pointer) || reflect_IsNil dest)).

(** The number of tries the loop is set up for. *)
Definition total_tries (cfg : Config) : Z :=
  Int.add 1 (Z.max 0 (cfg_attempts cfg)).

(** The options and the retry configuration the loop reads. *)
Definition loop_options (cfg : Config) (r : loc) : Options :=
  mkOptions (cfg_expected cfg) (Some r) (cfg_limiter cfg).

Definition loop_retry (cfg : Config) : RetryConfig :=
  mkRetryConfig (Z.max 0 (cfg_attempts cfg)) (cfg_retryCodes cfg).

(** The JSON codec can print every value it has parsed: what
    [json.MarshalIndent] does on the maps, slices, strings, finite numbers,
    booleans and nil that [json.Unmarshal] stores in an [any]. *)
Definition marshals_what_it_parses (env : Env) : Prop :=
  ∀ body raw, json_Unmarshal_any env body = inl raw →
              ∃ text, json_MarshalIndent env raw = inl text.

(** From the trace [tr] on, the limiter (if there is one) grants the next [n]
    waits on the context of the request. *)
Definition waits_granted (env : Env) (limiter : option Limiter) (rq : Request)
    (tr : Trace) (n : nat) : Prop :=
  ∀ k lim ctx, (k < n)%nat → limiter = Some lim → Request_Context rq = Some ctx →
               limiter_Wait env (nwaits tr + k) lim ctx = None.

(** From the trace [tr] on, the sends number [from], ..., [from + n - 1] are
    answered by responses whose body can be read and whose status satisfies
    [P]. *)
Definition answered (env : Env) (cl : Client) (rq : Request) (tr : Trace)
    (from n : nat) (P : Response → string → Prop) : Prop :=
  ∀ k, (from ≤ k < from + n)%nat →
       ∃ resp body, client_Do env (nsends tr + k) cl rq = inl resp
                    ∧ Body resp = inl body ∧ P resp body.

(** ** Constructors, the accessor and the package-level functions *)

(** [NewWithClient] (lines 96-101).  [DefaultClient] is the value of the
    package variable [http.DefaultClient] when the function runs. *)
Definition NewWithClient (DefaultClient client : option Client) : bHTTP :=
  let client :=
    match client with
    | None => DefaultClient
    | Some _ => client
    end in
  {| client := client |}.

(** [New] (lines 89-91). *)
Definition New (DefaultClient : option Client) : bHTTP :=
  NewWithClient DefaultClient DefaultClient.

(** The [Client] method (lines 158-160). *)
Definition bHTTP_Client (c : bHTTP) : option Client := client c.

(** The package-level functions (lines 112-156).  They share their names with
    the methods they call, which are the definitions above this module. *)
Module Package.

Definition DoWithOptions (env : Env) (DefaultClient : option Client)
    (req : option Request) (opts : option loc) (h : Heap) (tr : Trace)
    : option (option error * Heap * Trace) :=
  DoWithOptions env (New DefaultClient) req opts h tr.

Definition Do (env : Env) (DefaultClient : option Client)
    (req : option Request) (h : Heap) (tr : Trace)
    : option (option error * Heap * Trace) :=
  DoWithOptions env DefaultClient req None h tr.

(** [DoAndUnwrapWithOptions[T]]: [T] is the name of the type argument and [t]
    the address of the local variable [var t T]; the result is the pair of
    the returned pointer and the returned error. *)
Definition DoAndUnwrapWithOptions (env : Env) (DefaultClient : option Client)
    (T : string) (t : loc) (req : option Request) (opts : option loc)
    (h : Heap) (tr : Trace)
    : option ((option loc * option error) * Heap * Trace) :=
  '(err, h, tr) ←
    DoAndUnwrapWithOptions env (New DefaultClient) req
      (DestPtr ("*" +:+ T) t) opts h tr;
  match err with
  | Some err => Some ((None, Some err), h, tr)
  | None => Some ((Some t, None), h, tr)
  end.

Definition DoAndUnwrap (env : Env) (DefaultClient : option Client)
    (T : string) (t : loc) (req : option Request) (h : Heap) (tr : Trace)
    : option ((option loc * option error) * Heap * Trace) :=
  DoAndUnwrapWithOptions env DefaultClient T t req None h tr.

End Package.

(** ** More vocabulary *)

Definition is_close (e : Event) : bool :=
  match e with EvClose => true | _ => false end.
Definition is_readall (e : Event) : bool :=
  match e with EvReadAll => true | _ => false end.
Definition is_unmarshal (e : Event) : bool :=
  match e with EvUnmarshal => true | _ => false end.

(** The errors that [do] builds or passes on. *)
Definition is_do_error (e : error) : bool :=
  match e with
  | errors_New _ | External _ | RateLimitWaitFailed _
  | UnexpectedStatus _ _ _ | DecodeError _ _ => true
  | InvalidDestination _ | RetriesExhausted _ _ => false
  end.

(** ** A concrete world

    A scripted server in the manner of the test suite (the answer depends on
    the hit number), a limiter that grants every token unless the context is
    already cancelled, and a small JSON codec that knows the bodies used
    below. *)

Module Sample.

Definition dq : string := String (Ascii.ascii_of_nat 34) EmptyString.
Definition nl : string := String (Ascii.ascii_of_nat 10) EmptyString.
Definition tab : string := String (Ascii.ascii_of_nat 9) EmptyString.

Definition quote (s : string) : string := dq +:+ s +:+ dq.

(** The indented rendering of a decoded value, one tab per level. *)
Fixpoint render (indent : string) (v : any) : string :=
  match v with
  | JNull => "null"
  | JBool true => "true"
  | JBool false => "false"
  | JNumber literal => literal
  | JString s => quote s
  | JArray [] => "[]"
  | JArray elems =>
      let inner := indent +:+ tab in
      "[" +:+ nl +:+
      (fix items (l : list any) : string :=
         match l with
         | [] => ""
         | [x] => inner +:+ render inner x +:+ nl
         | x :: rest => inner +:+ render inner x +:+ "," +:+ nl +:+ items rest
         end) elems
      +:+ indent +:+ "]"
  | JObject [] => "{}"
  | JObject fields =>
      let inner := indent +:+ tab in
      "{" +:+ nl +:+
      (fix items (l : list (string * any)) : string :=
         match l with
         | [] => ""
         | [(k, x)] => inner +:+ quote k +:+ ": " +:+ render inner x +:+ nl
         | (k, x) :: rest =>
             inner +:+ quote k +:+ ": " +:+ render inner x +:+ "," +:+ nl
               +:+ items rest
         end) fields
      +:+ indent +:+ "}"
  end.

Definition field (k v : string) : string := quote k +:+ ":" +:+ quote v.

Definition body_still_down : string := "{" +:+ field "error" "still down" +:+ "}".
Definition body_temporary : string := "{" +:+ field "error" "temporary" +:+ "}".
Definition body_ok : string := "{" +:+ quote "ok" +:+ ":true}".
Definition body_plain : string := "plain error text".

Definition known_bodies : list (string * any) :=
  [ (body_still_down, JObject [("error"%string, JString "still down")]);
    (body_temporary, JObject [("error"%string, JString "temporary")]);
    (body_ok, JObject [("ok"%string, JBool true)]) ].

Definition parse (body : string) : any + string :=
  match List.find (λ p, String.eqb (fst p) body) known_bodies with
  | Some (_, v) => inl v
  | None => inr "invalid character 'p' looking for beginning of value"%string
  end.

Definition decode (body : string) (dest : Dest) : option string :=
  match dest with
  | DestPtr _ _ =>
      match parse body with
      | inl _ => None
      | inr msg => Some msg
      end
  | _ => Some "json: Unmarshal(non-pointer)"%string
  end.

(** The world in which the k-th request is answered by [server k]. *)
Definition world (server : nat → Response + string) : Env :=
  {| client_Do k _ _ := server k;
     limiter_Wait _ _ c := ctx_Err c;
     json_Unmarshal_any := parse;
     json_MarshalIndent v := inl (render "" v);
     json_Unmarshal := decode |}.

Definition reply (status : Z) (body : string) : Response + string :=
  inl {| StatusCode := status; Body := inl body |}.

Definition always (status : Z) (body : string) : nat → Response + string :=
  λ _, reply status body.

(** 503 for the first [n] hits, 200 afterwards. *)
Definition recovering (n : nat) (last : string) : nat → Response + string :=
  λ k, if (k <? n)%nat then reply 503 body_temporary else reply 200 last.

Definition c : bHTTP := {| client := Some (HTTPClient 1) |}.
Definition get : Request :=
  {| Method := "GET"; URL := "http://127.0.0.1/"; ctx := None |}.
Definition get_cancelled : Request :=
  {| Method := "GET"; URL := "http://127.0.0.1/";
     ctx := Some {| ctx_Err := Some "context canceled"%string |} |}.

(** A store with one [Options] at location 1 whose [Retry] is at location 1. *)
Definition store (expected : list Z) (attempts : Z) (retryCodes : list Z)
    (limiter : option Limiter) : Heap :=
  {| optionsH := {[ 1%positive := mkOptions expected (Some 1%positive) limiter ]};
     retryH := {[ 1%positive := mkRetryConfig attempts retryCodes ]} |}.

(** A store with one [Options] at location 1 whose [Retry] is nil. *)
Definition store_no_retry (expected : list Z) (limiter : option Limiter) : Heap :=
  {| optionsH := {[ 1%positive := mkOptions expected None limiter ]};
     retryH := ∅ |}.

Definition empty_store : Heap := {| optionsH := ∅; retryH := ∅ |}.

End Sample.

(** * Properties *)

(** ** Arithmetic of [int] *)

Lemma Int_wrap_id z : Int.MinInt ≤ z ≤ Int.MaxInt → Int.wrap z = z.
Proof.
  unfold Int.wrap, Int.MinInt, Int.MaxInt. intros Hz.
  rewrite Z.mod_small; lia.
Qed.

Lemma Int_wrap_range z : Int.MinInt ≤ Int.wrap z ≤ Int.MaxInt.
Proof.
  unfold Int.wrap, Int.MinInt, Int.MaxInt.
  pose proof (Z.mod_pos_bound (z + 2 ^ 63) (2 ^ 64)). lia.
Qed.

Lemma Int_add_small a b :
  Int.MinInt ≤ a + b ≤ Int.MaxInt → Int.add a b = a + b.
Proof. apply Int_wrap_id. Qed.

(** ** Counting events *)

Lemma count_app p (a b : Trace) : count p (a ++ b) = (count p a + count p b)%nat.
Proof. unfold count. by rewrite List.filter_app, length_app. Qed.

Lemma count_nil p : count p [] = 0%nat.
Proof. done. Qed.

Lemma count_cons p e (a : Trace) :
  count p (e :: a) = ((if p e then 1 else 0) + count p a)%nat.
Proof. unfold count. simpl. by destruct (p e). Qed.

Lemma count_no_ctrl p (evs : Trace) :
  (∀ e, p e = true → is_ctrl e = true) →
  Forall (λ e, is_ctrl e = false) evs → count p evs = 0%nat.
Proof.
  intros Hp. induction 1 as [|e evs He _ IH]; [done|].
  rewrite count_cons, IH. destruct (p e) eqn:E; [|done].
  apply Hp in E. congruence.
Qed.

(** Splitting a list at an element that its first part does not hold. *)
Lemma app_split_not_in {A} (l1 l2 pre post : list A) (x : A) :
  l1 ++ l2 = pre ++ x :: post → x ∉ l1 →
  ∃ pre', pre = l1 ++ pre' ∧ l2 = pre' ++ x :: post.
Proof.
  revert pre. induction l1 as [|a l1 IH]; intros pre Heq Hx.
  - by exists pre.
  - destruct pre as [|b pre]; simpl in Heq; simplify_eq.
    + exfalso. apply Hx. left.
    + destruct (IH pre) as (pre' & -> & ->); [done| |].
      * intros Hin. apply Hx. by right.
      * by exists pre'.
Qed.

Lemma ctrl_not_in (evs : Trace) (e : Event) :
  Forall (λ e, is_ctrl e = false) evs → is_ctrl e = true → e ∉ evs.
Proof.
  intros Hall He Hin. rewrite Forall_forall in Hall.
  specialize (Hall e Hin). congruence.
Qed.

(** ** The single-attempt executor *)

(** The events that [do] adds are calls to collaborators, and at most one of
    them is a send. *)
Lemma do_events env httpClient rateLimiter req dest expected retryCodes tr res tr' :
  do env httpClient rateLimiter req dest expected retryCodes tr = (res, tr') →
  ∃ evs, tr' = tr ++ evs
         ∧ Forall (λ e, is_ctrl e = false) evs
         ∧ (count is_send evs ≤ 1)%nat.
Proof.
  unfold do, do_response, errRespBody_events. intros Hdo.
  repeat case_match; simplify_eq;
    repeat rewrite <- (assoc_L (++));
    (eexists; split; [first [reflexivity | symmetry; apply app_nil_r]|]);
    (split; [repeat constructor | vm_compute; lia]).
Qed.

Lemma nsends_wait_events tr rateLimiter :
  nsends (tr ++ wait_events rateLimiter) = nsends tr.
Proof.
  unfold nsends. rewrite count_app. destruct rateLimiter; simpl; vm_compute count; lia.
Qed.

Lemma Request_Context_Some rq : ∃ c, Request_Context rq = Some c.
Proof. unfold Request_Context. destruct (ctx rq); eauto. Qed.

(** [do] up to the point where it holds a response. *)
Lemma do_response_eq env cl rateLimiter rq dest expected retryCodes tr resp :
  wait_granted env rateLimiter rq tr →
  client_Do env (nsends tr) cl rq = inl resp →
  do env (Some cl) rateLimiter (Some rq) dest expected retryCodes tr =
    let '(res, tr1) :=
      do_response env resp dest (effective_expected expected)
        retryCodes (tr ++ wait_events rateLimiter ++ [EvSend]) in
    (res, tr1 ++ [EvClose]).
Proof.
  intros Hwait Hsend. unfold do.
  destruct (Request_Context_Some rq) as [c Hc]. rewrite Hc.
  destruct rateLimiter as [lim|]; simpl.
  - rewrite (Hwait lim c eq_refl Hc).
    replace (nsends (tr ++ [EvWait])) with (nsends tr)
      by (symmetry; apply (nsends_wait_events tr (Some lim))).
    rewrite Hsend. by rewrite <- (assoc_L (++)).
  - by rewrite Hsend.
Qed.

(** [do] on a response that it can read and whose status is a retry code. *)
Lemma do_retry_eq env cl rateLimiter rq dest expected retryCodes tr resp body :
  wait_granted env rateLimiter rq tr →
  client_Do env (nsends tr) cl rq = inl resp →
  Body resp = inl body →
  slices_Contains retryCodes (StatusCode resp) = true →
  do env (Some cl) rateLimiter (Some rq) dest expected retryCodes tr
    = ((true, None),
       tr ++ wait_events rateLimiter ++ [EvSend; EvReadAll; EvClose]).
Proof.
  intros Hwait Hsend Hbody Hin.
  rewrite (do_response_eq _ _ _ _ _ _ _ _ resp Hwait Hsend).
  unfold do_response. rewrite Hbody, Hin.
  by repeat (rewrite <- (assoc_L (++)); simpl).
Qed.

(** When [do] asks for a retry, it has no error, it holds a response whose
    body it could read and whose status is one of the retry codes it was
    given, and it has called no JSON function. *)
Lemma do_retry_inv env httpClient rateLimiter req dest expected retryCodes tr e tr' :
  do env httpClient rateLimiter req dest expected retryCodes tr
    = ((true, e), tr') →
  e = None
  ∧ ∃ cl rq resp body,
      httpClient = Some cl ∧ req = Some rq
      ∧ client_Do env (nsends tr) cl rq = inl resp
      ∧ Body resp = inl body
      ∧ slices_Contains retryCodes (StatusCode resp) = true
      ∧ tr' = tr ++ wait_events rateLimiter ++ [EvSend; EvReadAll; EvClose].
Proof.
  unfold do, do_response. intros Hdo.
  destruct httpClient as [cl|]; [|simplify_eq].
  destruct req as [rq|]; [|simplify_eq].
  destruct (Request_Context_Some rq) as [c Hc]. rewrite Hc in Hdo.
  destruct rateLimiter as [lim|]; simpl in *.
  - destruct (limiter_Wait env (nwaits tr) lim c); [simplify_eq|].
    replace (nsends (tr ++ [EvWait])) with (nsends tr) in Hdo
      by (symmetry; apply (nsends_wait_events tr (Some lim))).
    destruct (client_Do env (nsends tr) cl rq) as [resp|] eqn:Hsend; [|simplify_eq].
    destruct (Body resp) as [body|] eqn:Hbody; [|simplify_eq].
    destruct (slices_Contains retryCodes (StatusCode resp)) eqn:Hin.
    + simplify_eq. split; [done|]. exists cl, rq, resp, body.
      repeat split; try done. by repeat rewrite <- (assoc_L (++)).
    + repeat case_match; simplify_eq.
  - destruct (client_Do env (nsends tr) cl rq) as [resp|] eqn:Hsend; [|simplify_eq].
    destruct (Body resp) as [body|] eqn:Hbody; [|simplify_eq].
    destruct (slices_Contains retryCodes (StatusCode resp)) eqn:Hin.
    + simplify_eq. split; [done|]. exists cl, rq, resp, body.
      repeat split; try done. by repeat rewrite <- (assoc_L (++)).
    + repeat case_match; simplify_eq.
Qed.

(** With no retry codes [do] never asks for a retry. *)
Lemma do_no_codes env httpClient rateLimiter req dest expected tr sr e tr' :
  do env httpClient rateLimiter req dest expected [] tr = ((sr, e), tr') →
  sr = false.
Proof.
  destruct sr; [|done]. intros Hdo.
  apply do_retry_inv in Hdo as (_ & ? & ? & ? & ? & _ & _ & _ & _ & Hin & _).
  done.
Qed.


(** ** The attempt loop *)

Section Loop.

Context (env : Env) (c : bHTTP) (req : option Request) (dest : Dest).
Context (h : Heap) (opts : loc) (o : Options) (r : loc) (rc : RetryConfig).
Context (totalTries : Z).
Hypothesis Hopts : load_Options h opts = Some o.
Hypothesis Hretry : load_Retry h opts = Some (r, rc).
Hypothesis Htotal : totalTries ≤ Int.MaxInt.

(** The loop returns, given one unit of fuel per remaining try, and what it
    does is a [run]. *)
Lemma exec_loop_run fuel : ∀ try tr,
  Int.MinInt ≤ try →
  totalTries + 1 - try ≤ Z.of_nat fuel →
  ∃ err evs,
    exec_loop env c req dest h opts totalTries fuel try tr = Some (err, tr ++ evs)
    ∧ run env c req dest o rc totalTries try tr err evs.
Proof.
  induction fuel as [|fuel IH]; intros try tr Hmin Hfuel.
  - simpl. destruct (Z.leb_spec try totalTries); [lia|].
    exists None, []. rewrite app_nil_r. split; [done|]. by constructor.
  - simpl. destruct (Z.leb_spec try totalTries) as [Hle|Hgt].
    2:{ exists None, []. rewrite app_nil_r. split; [done|]. by constructor. }
    rewrite Hopts, Hretry. simpl.
    fold (try_codes rc totalTries try).
    destruct (do env (client c) (RateLimiter o) req dest (ExpectedStatusCodes o)
                (try_codes rc totalTries try)
                (tr ++ [EvTry try (try_codes rc totalTries try)]))
      as [[sr err] tr1] eqn:Hdo.
    destruct (do_events _ _ _ _ _ _ _ _ _ _ Hdo) as (dev & -> & _ & _).
    destruct err as [e|].
    + exists (Some (wrap_error rc e)),
        (EvTry try (try_codes rc totalTries try) :: dev ++ [EvReturn sr (Some e)]).
      split.
      * unfold wrap_error. destruct (0 <? Attempts rc);
          by repeat rewrite <- (assoc_L (++)).
      * by apply run_fail.
    + destruct sr; simpl.
      * assert (try < totalTries) as Hlt.
        { destruct (decide (try = totalTries)) as [->|]; [|lia].
          unfold try_codes in Hdo. rewrite Z.eqb_refl in Hdo.
          by apply do_no_codes in Hdo. }
        rewrite Int_add_small by lia.
        destruct (IH (try + 1)
                    ((tr ++ [EvTry try (try_codes rc totalTries try)]) ++ dev
                       ++ [EvReturn true None]))
          as (err & evs & Hloop & Hrun); [lia|lia|].
        exists err,
          (EvTry try (try_codes rc totalTries try) :: dev ++ EvReturn true None :: evs).
        split.
        -- rewrite (assoc_L (++)) in Hloop. rewrite Hloop.
           by repeat (rewrite <- (assoc_L (++)); simpl).
        -- apply run_retry; [done|done|].
           by repeat (rewrite <- (assoc_L (++)) in Hrun; simpl in Hrun).
      * exists None,
          (EvTry try (try_codes rc totalTries try) :: dev ++ [EvReturn false None]).
        split; [by repeat rewrite <- (assoc_L (++))|]. by apply run_break.
Qed.

End Loop.

Section Run.

Context (env : Env) (c : bHTTP) (req : option Request) (dest : Dest).
Context (o : Options) (rc : RetryConfig) (totalTries : Z).

Local Abbreviation run' := (run env c req dest o rc totalTries).

Local Ltac dev_of Hdo dev Hctrl Hsend :=
  let dev' := fresh "dev'" in
  let Heq := fresh "Heq" in
  destruct (do_events _ _ _ _ _ _ _ _ _ _ Hdo) as (dev' & Heq & Hctrl & Hsend);
  apply app_inv_head in Heq; subst dev'.

(** Every try of a run has a number between the first try and [totalTries] and
    gets the retry codes of [try_codes]. *)
Lemma run_try_codes try tr err evs :
  run' try tr err evs →
  ∀ k codes, EvTry k codes ∈ evs →
             try ≤ k ≤ totalTries ∧ codes = try_codes rc totalTries k.
Proof.
  induction 1 as [try tr Hgt|try tr sr e dev Hle Hdo|try tr dev Hle Hdo
                  |try tr dev err evs Hlt Hdo Hrun IH]; intros k codes Hin.
  - by apply elem_of_nil in Hin.
  - dev_of Hdo dev Hctrl Hsend.
    apply elem_of_cons in Hin as [Heq|Hin]; [simplify_eq; split; [lia|done]|].
    apply elem_of_app in Hin as [Hin|Hin].
    + by apply ctrl_not_in in Hin.
    + apply list_elem_of_singleton in Hin. simplify_eq.
  - dev_of Hdo dev Hctrl Hsend.
    apply elem_of_cons in Hin as [Heq|Hin]; [simplify_eq; split; [lia|done]|].
    apply elem_of_app in Hin as [Hin|Hin].
    + by apply ctrl_not_in in Hin.
    + apply list_elem_of_singleton in Hin. simplify_eq.
  - dev_of Hdo dev Hctrl Hsend.
    apply elem_of_cons in Hin as [Heq|Hin]; [simplify_eq; split; [lia|done]|].
    apply elem_of_app in Hin as [Hin|Hin].
    + by apply ctrl_not_in in Hin.
    + apply elem_of_cons in Hin as [Heq|Hin]; [simplify_eq|].
      destruct (IH k codes Hin). split; [lia|done].
Qed.



(** An error of [do] ends the run: the return of [do] is the last event, and
    the run returns that error, wrapped by [wrap_error]. *)
Lemma run_error_last try tr err evs :
  run' try tr err evs →
  ∀ pre sr e post, evs = pre ++ EvReturn sr (Some e) :: post →
                   post = [] ∧ err = Some (wrap_error rc e).
Proof.
  induction 1 as [try tr Hgt|try tr sr e dev Hle Hdo|try tr dev Hle Hdo
                  |try tr dev err evs Hlt Hdo Hrun IH]; intros pre sr' e' post Heq.
  - by destruct pre.
  - dev_of Hdo dev Hctrl Hsend.
    apply (app_split_not_in (EvTry _ _ :: dev) [_]) in Heq
      as (pre' & -> & Heq).
    2:{ apply not_elem_of_cons. split; [done|]. by apply ctrl_not_in. }
    destruct pre' as [|? [|]]; simpl in Heq; simplify_eq; done.
  - dev_of Hdo dev Hctrl Hsend.
    apply (app_split_not_in (EvTry _ _ :: dev) [_]) in Heq
      as (pre' & -> & Heq).
    2:{ apply not_elem_of_cons. split; [done|]. by apply ctrl_not_in. }
    destruct pre' as [|? [|]]; simpl in Heq; simplify_eq.
  - dev_of Hdo dev Hctrl Hsend.
    apply (app_split_not_in (EvTry _ _ :: dev) (_ :: _)) in Heq
      as (pre' & -> & Heq).
    2:{ apply not_elem_of_cons. split; [done|]. by apply ctrl_not_in. }
    destruct pre' as [|? pre']; simpl in Heq; simplify_eq. eauto.
Qed.

(** The run goes on after a return of [do] only when [do] asked for a retry
    without an error, which it does only for a response whose status is one
    of the configured retry codes; what follows is the next try. *)
Lemma run_continues try tr err evs :
  run' try tr err evs →
  ∀ pre sr r post, evs = pre ++ EvReturn sr r :: post → post ≠ [] →
    sr = true ∧ r = None
    ∧ (∃ k codes post', post = EvTry k codes :: post')
    ∧ ∃ cl rq resp body,
        client c = Some cl ∧ req = Some rq
        ∧ client_Do env (nsends (tr ++ pre) - 1) cl rq = inl resp
        ∧ Body resp = inl body
        ∧ slices_Contains (RetryStatusCodes rc) (StatusCode resp) = true.
Proof.
  induction 1 as [try tr Hgt|try tr sr e dev Hle Hdo|try tr dev Hle Hdo
                  |try tr dev err evs Hlt Hdo Hrun IH];
    intros pre sr' r' post Heq Hpost.
  - by destruct pre.
  - dev_of Hdo dev Hctrl Hsend.
    apply (app_split_not_in (EvTry _ _ :: dev) [_]) in Heq
      as (pre' & -> & Heq).
    2:{ apply not_elem_of_cons. split; [done|]. by apply ctrl_not_in. }
    destruct pre' as [|? [|]]; simpl in Heq; simplify_eq.
  - dev_of Hdo dev Hctrl Hsend.
    apply (app_split_not_in (EvTry _ _ :: dev) [_]) in Heq
      as (pre' & -> & Heq).
    2:{ apply not_elem_of_cons. split; [done|]. by apply ctrl_not_in. }
    destruct pre' as [|? [|]]; simpl in Heq; simplify_eq.
  - pose proof Hdo as Hdo'. dev_of Hdo' dev Hctrl Hsend.
    apply (app_split_not_in (EvTry _ _ :: dev) (_ :: _)) in Heq
      as (pre' & -> & Heq).
    2:{ apply not_elem_of_cons. split; [done|]. by apply ctrl_not_in. }
    destruct pre' as [|? pre']; simpl in Heq; simplify_eq.
    + (* the return of this very try *)
      split; [done|]. split; [done|]. split.
      { inversion Hrun; simplify_eq; eauto. }
      apply do_retry_inv in Hdo
        as (_ & cl & rq & resp & body & Hc & Hrq & Hsnd & Hbody & Hin & Htr).
      apply app_inv_head in Htr. subst dev.
      exists cl, rq, resp, body.
      assert (nsends (tr ++ [EvTry try (try_codes rc totalTries try)]) = nsends tr)
        as Hn by (unfold nsends; rewrite count_app; vm_compute (count _ [_]); lia).
      rewrite Hn in Hsnd.
      assert (nsends (tr ++ (EvTry try (try_codes rc totalTries try)
                               :: wait_events (RateLimiter o)
                               ++ [EvSend; EvReadAll; EvClose]) ++ [])
              = S (nsends tr)) as Hn'.
      { unfold nsends. rewrite app_nil_r, count_app, count_cons, count_app.
        destruct (RateLimiter o); vm_compute (count _ (wait_events _));
          vm_compute (count _ [_; _; _]); simpl; lia. }
      rewrite Hn'. replace (S (nsends tr) - 1)%nat with (nsends tr) by lia.
      repeat split; try done.
      unfold try_codes in Hin. destruct (try =? totalTries); [done|done].
    + (* a return of a later try *)
      destruct (IH pre' sr' r' post eq_refl Hpost)
        as (-> & -> & Hnext & cl & rq & resp & body & Hc & Hrq & Hsnd & Hbody & Hin).
      split; [done|]. split; [done|]. split; [done|].
      exists cl, rq, resp, body.
      replace (tr ++ (EvTry try (try_codes rc totalTries try) :: dev)
                  ++ EvReturn true None :: pre')
        with ((tr ++ EvTry try (try_codes rc totalTries try) :: dev
                   ++ [EvReturn true None]) ++ pre'); [done|].
      by repeat (rewrite <- (assoc_L (++)); simpl).
Qed.

End Run.

(** ** Normalizing the options *)

Lemma normalize_keep h l o r rc :
  optionsH h !! l = Some o → Retry o = Some r → retryH h !! r = Some rc →
  0 ≤ Attempts rc →
  normalize (Some l) h = Some (l, h).
Proof.
  intros Ho Hr Hrc Hge. unfold normalize, load_Options, load_Retry.
  rewrite Ho. simpl. rewrite Hr. rewrite Ho. simpl. rewrite Hr. simpl.
  rewrite Hrc. simpl. destruct (Z.ltb_spec (Attempts rc) 0); [lia|done].
Qed.

Lemma normalize_clamp h l o r rc :
  optionsH h !! l = Some o → Retry o = Some r → retryH h !! r = Some rc →
  Attempts rc < 0 →
  normalize (Some l) h
    = Some (l, store_Retry h r (mkRetryConfig 0 (RetryStatusCodes rc))).
Proof.
  intros Ho Hr Hrc Hlt. unfold normalize, load_Options, load_Retry.
  rewrite Ho. simpl. rewrite Hr. rewrite Ho. simpl. rewrite Hr. simpl.
  rewrite Hrc. simpl. destruct (Z.ltb_spec (Attempts rc) 0); [done|lia].
Qed.

Lemma normalize_new_retry h l o :
  optionsH h !! l = Some o → Retry o = None →
  normalize (Some l) h
    = Some (l, store_Options (new_RetryConfig h).2 l
                 (mkOptions (ExpectedStatusCodes o)
                    (Some (fresh (dom (retryH h)))) (RateLimiter o))).
Proof.
  intros Ho Hr. unfold normalize, load_Options, load_Retry.
  rewrite Ho. simpl. rewrite Hr. simpl.
  rewrite lookup_insert_eq. simpl. rewrite lookup_insert_eq. simpl. done.
Qed.

Lemma normalize_nil h :
  normalize None h
    = Some (fresh (dom (optionsH h)),
            store_Options (new_RetryConfig (new_Options h).2).2
              (fresh (dom (optionsH h)))
              (mkOptions [] (Some (fresh (dom (retryH h)))) None)).
Proof.
  unfold normalize, load_Options, load_Retry. simpl.
  rewrite lookup_insert_eq. simpl.
  rewrite lookup_insert_eq. simpl. rewrite lookup_insert_eq. simpl. done.
Qed.

(** After normalizing, [opts] points to options whose [Retry] is not nil and
    whose [Attempts] is the configured one, or 0 if that was negative; the
    other fields are as configured. *)
Lemma normalize_spec h opts cfg :
  configured h opts = Some cfg →
  ∃ l h' r,
    normalize opts h = Some (l, h')
    ∧ load_Options h' l
      = Some (mkOptions (cfg_expected cfg) (Some r) (cfg_limiter cfg))
    ∧ load_Retry h' l
      = Some (r, mkRetryConfig (Z.max 0 (cfg_attempts cfg)) (cfg_retryCodes cfg)).
Proof.
  unfold configured. intros Hcfg. destruct opts as [l|].
  - destruct (optionsH h !! l) as [o|] eqn:Ho; [|done]. simpl in Hcfg.
    destruct (Retry o) as [r|] eqn:Hr.
    + destruct (retryH h !! r) as [rc|] eqn:Hrc; [|done].
      simpl in Hcfg. simplify_eq. simpl.
      destruct (Z.lt_ge_cases (Attempts rc) 0) as [Hlt|Hge].
      * exists l, (store_Retry h r (mkRetryConfig 0 (RetryStatusCodes rc))), r.
        split; [by eapply normalize_clamp|].
        unfold load_Options, load_Retry, store_Retry. simpl.
        rewrite Ho. simpl. rewrite Hr. simpl. rewrite lookup_insert_eq. simpl.
        destruct o; simpl in *; subst. rewrite Z.max_l by lia. done.
      * exists l, h, r. split; [by eapply normalize_keep|].
        unfold load_Options, load_Retry.
        rewrite Ho. simpl. rewrite Hr. simpl. rewrite Hrc. simpl.
        destruct o, rc; simpl in *; subst. rewrite Z.max_r by lia. done.
    + simplify_eq. simpl. eexists l, _, _.
      split; [by eapply normalize_new_retry|].
      unfold load_Options, load_Retry, store_Options, new_RetryConfig. simpl.
      rewrite lookup_insert_eq. simpl. rewrite lookup_insert_eq. done.
  - simplify_eq. simpl. eexists _, _, _. split; [apply normalize_nil|].
    unfold load_Options, load_Retry, store_Options, new_RetryConfig, new_Options.
    simpl. rewrite lookup_insert_eq. simpl. rewrite lookup_insert_eq. done.
Qed.

(** [exec] returns for every call whose pointers are valid.  A call that
    passes the destination check normalizes the options and then is a [run]
    from try 1. *)
Lemma exec_run env c req dest validateDest opts h tr cfg :
  configured h opts = Some cfg →
  dest_accepted validateDest dest = true →
  ∃ l h' r err evs,
    normalize opts h = Some (l, h')
    ∧ exec env c req dest validateDest opts h tr = Some (err, h', tr ++ evs)
    ∧ run env c req dest (loop_options cfg r) (loop_retry cfg)
        (total_tries cfg) 1 tr err evs.
Proof.
  intros Hcfg Hdest.
  destruct (normalize_spec h opts cfg Hcfg) as (l & h' & r & Hnorm & Ho & Hrc).
  assert (total_tries cfg ≤ Int.MaxInt) as Hmax by apply Int_wrap_range.
  destruct (exec_loop_run env c req dest h' l _ r _ (total_tries cfg) Ho Hrc
              Hmax (Z.to_nat (total_tries cfg)) 1 tr)
    as (err & evs & Hloop & Hrun); [unfold Int.MinInt; lia|lia|].
  exists l, h', r, err, evs. split; [done|]. split; [|done].
  unfold exec. unfold dest_accepted in Hdest.
  apply negb_true_iff in Hdest. rewrite Hdest.
  rewrite Hnorm. simpl. rewrite Hrc. simpl.
  unfold total_tries in Hloop. simpl. rewrite Hloop. done.
Qed.

(** [exec] returns for every call whose pointers are valid. *)
Lemma exec_returns env c req dest validateDest opts h tr cfg :
  configured h opts = Some cfg →
  is_Some (exec env c req dest validateDest opts h tr).
Proof.
  intros Hcfg. destruct (dest_accepted validateDest dest) eqn:Hdest.
  - destruct (exec_run env c req dest validateDest opts h tr cfg Hcfg Hdest)
      as (l & h' & r & err & evs & _ & -> & _). eauto.
  - unfold dest_accepted in Hdest. apply negb_false_iff in Hdest.
    unfold exec. rewrite Hdest. eauto.
Qed.

Lemma exec_rejected env c req dest validateDest opts h tr :
  dest_accepted validateDest dest = false →
  exec env c req dest validateDest opts h tr
    = Some (Some (InvalidDestination (fmt_T dest)), h, tr).
Proof.
  unfold dest_accepted, exec. intros Hdest.
  apply negb_false_iff in Hdest. by rewrite Hdest.
Qed.

(** ** The single-attempt executor: retry classification, limiter, diagnostics *)

(** C7, as amended: for every response whose body was read without error and
    whose status code is one of the retry codes given to [do], [do] returns
    [(true, nil)] right after the read: the events of the attempt are the
    limiter wait (if any), the send, the read and the deferred close, and in
    particular no JSON function is called, whatever the expected codes and
    the destination are. *)
Theorem retry_status_returns_early
    env cl rateLimiter rq dest expected retryCodes tr resp body :
  wait_granted env rateLimiter rq tr →
  client_Do env (nsends tr) cl rq = inl resp →
  Body resp = inl body →
  slices_Contains retryCodes (StatusCode resp) = true →
  do env (Some cl) rateLimiter (Some rq) dest expected retryCodes tr
    = ((true, None),
       tr ++ wait_events rateLimiter ++ [EvSend; EvReadAll; EvClose])
  ∧ count is_json (wait_events rateLimiter ++ [EvSend; EvReadAll; EvClose]) = 0%nat.
Proof.
  intros Hwait Hsend Hbody Hin. split.
  - by eapply do_retry_eq.
  - by destruct rateLimiter.
Qed.

Lemma retry_status_returns_early_witness :
  do (Sample.world (Sample.always 503 Sample.body_still_down))
     (Some (HTTPClient 1)) None (Some Sample.get) (DestPtr "*T" 1%positive)
     [200] [503] []
    = ((true, None), [] ++ wait_events None ++ [EvSend; EvReadAll; EvClose])
  ∧ count is_json (wait_events None ++ [EvSend; EvReadAll; EvClose]) = 0%nat.
Proof.
  apply (retry_status_returns_early
           (Sample.world (Sample.always 503 Sample.body_still_down))
           (HTTPClient 1) None Sample.get (DestPtr "*T" 1%positive) [200] [503] []
           {| StatusCode := 503; Body := inl Sample.body_still_down |}
           Sample.body_still_down).
  - intros lim ctx Hlim. discriminate Hlim.
  - reflexivity.
  - reflexivity.
  - reflexivity.
Defined.

(** C7, as stated, fails when the body cannot be read: the response below has
    status 503, which is one of the retry codes, and [do] returns the read
    error with [shouldRetry = false] (lines 253-256 come before line 258). *)
Lemma retry_status_unreadable_body :
  let resp := {| StatusCode := 503; Body := inr "unexpected EOF"%string |} in
  let env := Sample.world (λ _, inl resp) in
  client_Do env 0 (HTTPClient 1) Sample.get = inl resp
  ∧ slices_Contains [503] (StatusCode resp) = true
  ∧ do env (Some (HTTPClient 1)) None (Some Sample.get) DestNil [200] [503] []
    = ((false, Some (External "unexpected EOF")), [EvSend; EvReadAll; EvClose])
  ∧ (do env (Some (HTTPClient 1)) None (Some Sample.get) DestNil [200] [503] []).1
    ≠ (true, None).
Proof. repeat split. discriminate. Qed.

(** C9: [do] never returns [shouldRetry = true] together with an error: its
    result is [(true, nil)] or [(false, e)].  So in every call of [exec]
    whose pointers are valid, a return of [do] that is followed by anything
    at all is a return of [(true, nil)], and what follows is the next try. *)
Theorem do_retry_xor_error :
  (∀ env httpClient rateLimiter req dest expected retryCodes tr,
     (do env httpClient rateLimiter req dest expected retryCodes tr).1
       = (true, None)
     ∨ ∃ e, (do env httpClient rateLimiter req dest expected retryCodes tr).1
            = (false, e))
  ∧ (∀ env c req dest validateDest opts h tr cfg,
       configured h opts = Some cfg →
       ∃ err h' evs,
         exec env c req dest validateDest opts h tr = Some (err, h', tr ++ evs)
         ∧ ∀ pre sr r post,
             evs = pre ++ EvReturn sr r :: post → post ≠ [] →
             sr = true ∧ r = None
             ∧ ∃ k codes post', post = EvTry k codes :: post').
Proof.
  split.
  - intros env httpClient rateLimiter req dest expected retryCodes tr.
    destruct (do env httpClient rateLimiter req dest expected retryCodes tr)
      as [[[] e] tr'] eqn:Hdo; simpl.
    + left. by apply do_retry_inv in Hdo as [-> _].
    + right. by exists e.
  - intros env c req dest validateDest opts h tr cfg Hcfg.
    destruct (dest_accepted validateDest dest) eqn:Hdest.
    + destruct (exec_run env c req dest validateDest opts h tr cfg Hcfg Hdest)
        as (l & h' & r & err & evs & _ & Hexec & Hrun).
      exists err, h', evs. split; [done|].
      intros pre sr r0 post Heq Hpost.
      destruct (run_continues _ _ _ _ _ _ _ _ _ _ _ Hrun pre sr r0 post Heq Hpost)
        as (-> & -> & Hnext & _). done.
    + exists (Some (InvalidDestination (fmt_T dest))), h, [].
      rewrite app_nil_r. split; [by apply exec_rejected|].
      intros pre ? ? ? Heq. by destruct pre.
Qed.

Lemma do_retry_xor_error_witness :
  ∃ err h' evs,
    exec (Sample.world (Sample.recovering 2 Sample.body_ok)) Sample.c
      (Some Sample.get) DestNil false (Some 1%positive)
      (Sample.store [200] 2 [503] None) []
      = Some (err, h', [] ++ evs)
    ∧ ∀ pre sr r post,
        evs = pre ++ EvReturn sr r :: post → post ≠ [] →
        sr = true ∧ r = None
        ∧ ∃ k codes post', post = EvTry k codes :: post'.
Proof.
  apply (proj2 do_retry_xor_error
           (Sample.world (Sample.recovering 2 Sample.body_ok)) Sample.c
           (Some Sample.get) DestNil false (Some 1%positive)
           (Sample.store [200] 2 [503] None) []
           (mkConfig [200] 2 [503] None)).
  reflexivity.
Defined.



(** The body text carried by an [UnexpectedStatus] or a [DecodeError] of [do]
    is [errRespBody] of the response body read in that attempt. *)
Lemma do_error_text
    env httpClient rateLimiter req dest expected retryCodes tr sr e tr' text :
  do env httpClient rateLimiter req dest expected retryCodes tr
    = ((sr, Some e), tr') →
  (∃ codes got, e = UnexpectedStatus codes got text)
  ∨ (∃ cause, e = DecodeError cause text) →
  ∃ cl rq resp body,
    httpClient = Some cl ∧ req = Some rq
    ∧ client_Do env (nsends tr) cl rq = inl resp
    ∧ Body resp = inl body
    ∧ text = errRespBody env body.
Proof.
  intros Hdo Hkind. unfold do in Hdo.
  destruct httpClient as [cl|]; [|destruct Hkind as [(?&?&?)|(?&?)]; simplify_eq].
  destruct req as [rq|]; [|destruct Hkind as [(?&?&?)|(?&?)]; simplify_eq].
  destruct (Request_Context_Some rq) as [c Hc]. rewrite Hc in Hdo.
  exists cl, rq.
  assert (∀ tr0, nsends tr0 = nsends tr →
            match client_Do env (nsends tr0) cl rq with
            | inl resp =>
                let '(res, tr1) :=
                  do_response env resp dest (effective_expected expected)
                    retryCodes (tr0 ++ [EvSend]) in
                (res, tr1 ++ [EvClose])
            | inr err => ((false, Some (External err)), tr0 ++ [EvSend])
            end = ((sr, Some e), tr') →
            ∃ resp body,
              client_Do env (nsends tr) cl rq = inl resp ∧ Body resp = inl body
              ∧ text = errRespBody env body) as Hsent.
  { intros tr0 -> Hres.
    destruct (client_Do env (nsends tr) cl rq) as [resp|] eqn:Hsend.
    2:{ destruct Hkind as [(?&?&?)|(?&?)]; simplify_eq. }
    exists resp. unfold do_response in Hres.
    destruct (Body resp) as [body|] eqn:Hbody.
    2:{ destruct Hkind as [(?&?&?)|(?&?)]; simplify_eq. }
    exists body. split; [done|]. split; [done|].
    destruct Hkind as [(?&?&?)|(?&?)]; repeat case_match; simplify_eq; done. }
  destruct rateLimiter as [lim|]; simpl in Hdo.
  - destruct (limiter_Wait env (nwaits tr) lim c).
    { destruct Hkind as [(?&?&?)|(?&?)]; simplify_eq. }
    destruct (Hsent (tr ++ [EvWait])) as (resp & body & ? & ? & ?);
      [apply (nsends_wait_events tr (Some lim))|done|].
    by exists resp, body.
  - destruct (Hsent tr) as (resp & body & ? & ? & ?); [done|done|].
    by exists resp, body.
Qed.

(** C8: the body text carried by an [UnexpectedStatus] or a [DecodeError] of
    [do] is the text of the response body read in that attempt: its
    re-serialization by [json.MarshalIndent] when the body parses as JSON,
    and the body itself, unchanged, when it does not. *)
Theorem diagnostic_body
    env httpClient rateLimiter req dest expected retryCodes tr sr e tr' text :
  marshals_what_it_parses env →
  do env httpClient rateLimiter req dest expected retryCodes tr
    = ((sr, Some e), tr') →
  (∃ codes got, e = UnexpectedStatus codes got text)
  ∨ (∃ cause, e = DecodeError cause text) →
  ∃ cl rq resp body,
    httpClient = Some cl ∧ req = Some rq
    ∧ client_Do env (nsends tr) cl rq = inl resp
    ∧ Body resp = inl body
    ∧ match json_Unmarshal_any env body with
      | inl raw => json_MarshalIndent env raw = inl text
      | inr _ => text = body
      end.
Proof.
  intros Hcodec Hdo Hkind.
  destruct (do_error_text _ _ _ _ _ _ _ _ _ _ _ _ Hdo Hkind)
    as (cl & rq & resp & body & -> & -> & Hsend & Hbody & ->).
  exists cl, rq, resp, body. repeat split; try done.
  unfold errRespBody.
  destruct (json_Unmarshal_any env body) as [raw|] eqn:Hparse; [|done].
  destruct (Hcodec body raw Hparse) as [p Hp]. by rewrite Hp.
Qed.

Lemma diagnostic_body_witness :
  ∃ cl rq resp body,
    Some (HTTPClient 1) = Some cl ∧ Some Sample.get = Some rq
    ∧ client_Do (Sample.world (Sample.always 503 Sample.body_still_down))
        (nsends []) cl rq = inl resp
    ∧ Body resp = inl body
    ∧ match json_Unmarshal_any
              (Sample.world (Sample.always 503 Sample.body_still_down)) body with
      | inl raw =>
          json_MarshalIndent
            (Sample.world (Sample.always 503 Sample.body_still_down)) raw
          = inl (Sample.render "" (JObject [("error"%string, JString "still down")]))
      | inr _ =>
          Sample.render "" (JObject [("error"%string, JString "still down")]) = body
      end.
Proof.
  apply (diagnostic_body
           (Sample.world (Sample.always 503 Sample.body_still_down))
           (Some (HTTPClient 1)) None (Some Sample.get) DestNil [200] [] []
           false
           (UnexpectedStatus [200] 503
              (Sample.render "" (JObject [("error"%string, JString "still down")])))
           [EvSend; EvReadAll; EvUnmarshalAny; EvMarshalIndent; EvClose]).
  - intros body raw Hparse. eexists. reflexivity.
  - reflexivity.
  - left. eexists _, _. reflexivity.
Defined.

(** C10: when the destination is to be validated and is not a non-nil pointer,
    [exec] returns the "dest must be a non-nil pointer" error at once: the
    store is as it was (the options are not normalized) and so is the trace
    (no try, no limiter wait, no send), and the error is never a
    [RetriesExhausted], whatever the options say. *)
Theorem invalid_destination_first env c req dest opts h tr :
  (∀ ty p, dest ≠ DestPtr ty p) →
  exec env c req dest true opts h tr
    = Some (Some (InvalidDestination (fmt_T dest)), h, tr)
  ∧ ∀ n cause, InvalidDestination (fmt_T dest) ≠ RetriesExhausted n cause.
Proof.
  intros Hdest. split; [|done].
  apply exec_rejected. destruct dest; try done. by destruct (Hdest ty p).
Qed.

Lemma invalid_destination_first_witness :
  exec (Sample.world (Sample.always 200 Sample.body_ok)) Sample.c
    (Some Sample.get) (DestNilPtr "*T") true (Some 1%positive)
    (Sample.store [200] 2 [503] (Some (RateLimiter_at 1%positive))) []
    = Some (Some (InvalidDestination (fmt_T (DestNilPtr "*T"))),
            Sample.store [200] 2 [503] (Some (RateLimiter_at 1%positive)), [])
  ∧ ∀ n cause,
      InvalidDestination (fmt_T (DestNilPtr "*T")) ≠ RetriesExhausted n cause.
Proof.
  apply (invalid_destination_first
           (Sample.world (Sample.always 200 Sample.body_ok)) Sample.c
           (Some Sample.get) (DestNilPtr "*T") (Some 1%positive)
           (Sample.store [200] 2 [503] (Some (RateLimiter_at 1%positive))) []).
  intros ty p Heq. discriminate Heq.
Defined.

(** ** The attempt loop: errors and retries *)

Lemma wrap_error_loop_retry cfg e :
  wrap_error (loop_retry cfg) e
  = if 0 <? cfg_attempts cfg then RetriesExhausted (cfg_attempts cfg) e else e.
Proof.
  unfold wrap_error, loop_retry. simpl.
  destruct (Z.ltb_spec 0 (cfg_attempts cfg)).
  - rewrite Z.max_r by lia. by destruct (Z.ltb_spec 0 (cfg_attempts cfg)); [|lia].
  - rewrite Z.max_l by lia. done.
Qed.

(** C5: in every call of [exec] whose pointers are valid, a try on which [do]
    returns an error (of the transport, of the body read, an unexpected
    status, a decode error or any other) is the last thing that happens: no
    event follows the return of [do], and [exec] returns that error, bare or
    wrapped.  A return of [do] is followed by another try only if [do]
    returned [(true, nil)], and then the response of that try could be read
    and its status is one of the configured retry codes. *)
Theorem error_ends_the_loop env c req dest validateDest opts h tr cfg :
  configured h opts = Some cfg →
  ∃ err h' evs,
    exec env c req dest validateDest opts h tr = Some (err, h', tr ++ evs)
    ∧ (∀ pre sr e post,
         evs = pre ++ EvReturn sr (Some e) :: post →
         post = []
         ∧ (err = Some e ∨ err = Some (RetriesExhausted (cfg_attempts cfg) e)))
    ∧ (∀ pre sr r post,
         evs = pre ++ EvReturn sr r :: post → post ≠ [] →
         sr = true ∧ r = None
         ∧ ∃ cl rq resp body,
             client c = Some cl ∧ req = Some rq
             ∧ client_Do env (nsends (tr ++ pre) - 1) cl rq = inl resp
             ∧ Body resp = inl body
             ∧ slices_Contains (cfg_retryCodes cfg) (StatusCode resp) = true).
Proof.
  intros Hcfg.
  destruct (dest_accepted validateDest dest) eqn:Hdest.
  - destruct (exec_run env c req dest validateDest opts h tr cfg Hcfg Hdest)
      as (l & h' & r & err & evs & _ & Hexec & Hrun).
    exists err, h', evs. split; [done|]. split.
    + intros pre sr e post Heq.
      destruct (run_error_last _ _ _ _ _ _ _ _ _ _ _ Hrun pre sr e post Heq)
        as [-> ->].
      split; [done|]. rewrite wrap_error_loop_retry.
      destruct (0 <? cfg_attempts cfg); auto.
    + intros pre sr r0 post Heq Hpost.
      destruct (run_continues _ _ _ _ _ _ _ _ _ _ _ Hrun pre sr r0 post Heq Hpost)
        as (-> & -> & _ & Hresp). done.
  - exists (Some (InvalidDestination (fmt_T dest))), h, [].
    rewrite app_nil_r. split; [by apply exec_rejected|].
    split; intros pre ? ? ? Heq; by destruct pre.
Qed.

Lemma error_ends_the_loop_witness :
  ∃ err h' evs,
    exec (Sample.world (Sample.always 503 Sample.body_still_down)) Sample.c
      (Some Sample.get) DestNil false (Some 1%positive)
      (Sample.store [200] 2 [503] None) []
      = Some (err, h', [] ++ evs)
    ∧ (∀ pre sr e post,
         evs = pre ++ EvReturn sr (Some e) :: post →
         post = []
         ∧ (err = Some e
            ∨ err = Some (RetriesExhausted
                            (cfg_attempts (mkConfig [200] 2 [503] None)) e)))
    ∧ (∀ pre sr r post,
         evs = pre ++ EvReturn sr r :: post → post ≠ [] →
         sr = true ∧ r = None
         ∧ ∃ cl rq resp body,
             client Sample.c = Some cl ∧ Some Sample.get = Some rq
             ∧ client_Do (Sample.world (Sample.always 503 Sample.body_still_down))
                 (nsends ([] ++ pre) - 1) cl rq = inl resp
             ∧ Body resp = inl body
             ∧ slices_Contains (cfg_retryCodes (mkConfig [200] 2 [503] None))
                 (StatusCode resp) = true).
Proof.
  apply (error_ends_the_loop
           (Sample.world (Sample.always 503 Sample.body_still_down)) Sample.c
           (Some Sample.get) DestNil false (Some 1%positive)
           (Sample.store [200] 2 [503] None) []
           (mkConfig [200] 2 [503] None)).
  reflexivity.
Defined.




(** ** What [exec] writes to the options *)




(** ** Scenarios: retry-classified responses and a last try *)

(** [do] on a response that it can read and whose status is not a retry
    code: one send, and the verdict of lines 262-282. *)
Lemma do_verdict_eq env cl rateLimiter rq dest expected retryCodes tr resp body :
  wait_granted env rateLimiter rq tr →
  client_Do env (nsends tr) cl rq = inl resp →
  Body resp = inl body →
  slices_Contains retryCodes (StatusCode resp) = false →
  ∃ dev,
    do env (Some cl) rateLimiter (Some rq) dest expected retryCodes tr
      = ((false,
          verdict env dest (effective_expected expected) (StatusCode resp) body),
         tr ++ dev)
    ∧ nsends dev = 1%nat
    ∧ Forall (λ e, is_ctrl e = false) dev.
Proof.
  intros Hwait Hsend Hbody Hin.
  rewrite (do_response_eq _ _ _ _ _ _ _ _ resp Hwait Hsend).
  unfold do_response, verdict, errRespBody_events. rewrite Hbody, Hin.
  destruct rateLimiter; repeat case_match; simplify_eq;
    repeat (simpl; rewrite <- ?(assoc_L (++)));
    (eexists; split; [reflexivity|]);
    (split; [by vm_compute|repeat constructor]).
Qed.

Lemma count_ctrl_free_round p (tr dev : Trace) e1 e2 :
  Forall (λ e, is_ctrl e = false) dev →
  (∀ e, p e = true → is_ctrl e = false) →
  is_ctrl e1 = true → is_ctrl e2 = true →
  count p (tr ++ e1 :: dev ++ [e2]) = (count p tr + count p dev)%nat.
Proof.
  intros Hdev Hp H1 H2.
  rewrite count_app, count_cons, count_app, count_cons, count_nil.
  destruct (p e1) eqn:E1; [apply Hp in E1; congruence|].
  destruct (p e2) eqn:E2; [apply Hp in E2; congruence|]. lia.
Qed.

Section Scenario.

Context (env : Env) (c : bHTTP) (cl : Client) (rq : Request) (dest : Dest).
Context (o : Options) (rc : RetryConfig) (totalTries : Z).
Hypothesis Hclient : client c = Some cl.

Local Abbreviation run' := (run env c (Some rq) dest o rc totalTries).

Local Lemma round_counts :
  nsends (wait_events (RateLimiter o) ++ [EvSend; EvReadAll; EvClose]) = 1%nat
  ∧ (is_Some (RateLimiter o) →
     nwaits (wait_events (RateLimiter o) ++ [EvSend; EvReadAll; EvClose]) = 1%nat)
  ∧ Forall (λ e, is_ctrl e = false)
      (wait_events (RateLimiter o) ++ [EvSend; EvReadAll; EvClose]).
Proof.
  destruct (RateLimiter o); simpl; repeat split; try done;
    try (repeat constructor); by intros [? ?].
Qed.

(** [n] retry-classified responses in a row take the loop [n] tries further,
    with one send each. *)
Lemma run_retry_rounds n : ∀ try tr err evs,
  run' try tr err evs →
  try + Z.of_nat n ≤ totalTries →
  waits_granted env (RateLimiter o) rq tr n →
  answered env cl rq tr 0 n
    (λ resp _, slices_Contains (RetryStatusCodes rc) (StatusCode resp) = true) →
  ∃ evs1 evs2,
    evs = evs1 ++ evs2
    ∧ ntries evs1 = n ∧ nsends evs1 = n
    ∧ (is_Some (RateLimiter o) → nwaits evs1 = n)
    ∧ run' (try + Z.of_nat n) (tr ++ evs1) err evs2.
Proof.
  induction n as [|n IH]; intros try tr err evs Hrun Hle Hwaits Hresp.
  - exists [], evs. rewrite app_nil_r, Z.add_0_r. done.
  - destruct (Hresp 0%nat) as (resp & body & Hsend & Hbody & Hin); [lia|].
    rewrite Nat.add_0_r in Hsend.
    assert (try_codes rc totalTries try = RetryStatusCodes rc) as Hcodes.
    { unfold try_codes. destruct (Z.eqb_spec try totalTries); [lia|done]. }
    destruct round_counts as (Hns & Hnw & Hctrl).
    set (dev := wait_events (RateLimiter o) ++ [EvSend; EvReadAll; EvClose]) in *.
    assert (do env (client c) (RateLimiter o) (Some rq) dest (ExpectedStatusCodes o)
              (try_codes rc totalTries try)
              (tr ++ [EvTry try (try_codes rc totalTries try)])
            = ((true, None),
               (tr ++ [EvTry try (try_codes rc totalTries try)]) ++ dev))
      as Hdo.
    { rewrite Hclient. apply (do_retry_eq _ _ _ _ _ _ _ _ resp body).
      - intros lim ctx Hlim Hctx. unfold nwaits.
        rewrite count_app, count_cons, count_nil. simpl. rewrite Nat.add_0_r.
        specialize (Hwaits 0%nat lim ctx). rewrite Nat.add_0_r in Hwaits.
        apply Hwaits; [lia|done|done].
      - unfold nsends. rewrite count_app, count_cons, count_nil. simpl.
        by rewrite Nat.add_0_r.
      - done.
      - by rewrite Hcodes. }
    inversion Hrun as [|? ? sr e dev' _ Hdo'|? ? dev' _ Hdo'
                       |? ? dev' ? evs' _ Hdo' Hrun']; simplify_eq.
    + lia.
    + rewrite Hdo in Hdo'. simplify_eq.
    + rewrite Hdo in Hdo'. simplify_eq.
    + rewrite Hdo in Hdo'. injection Hdo' as Heq.
      apply app_inv_head in Heq. subst dev'.
      set (tr2 := tr ++ EvTry try (try_codes rc totalTries try)
                     :: dev ++ [EvReturn true None]) in *.
      assert (nsends tr2 = S (nsends tr)) as Hns2.
      { unfold nsends, tr2. rewrite count_ctrl_free_round; try done.
        - fold nsends. rewrite Hns. lia.
        - by intros []. }
      destruct (IH (try + 1) tr2 err evs' Hrun') as
        (evs1 & evs2 & -> & Hnt & Hnse & Hnwa & Hrest).
      * lia.
      * intros k lim ctx Hk Hlim Hctx.
        assert (nwaits tr2 = S (nwaits tr)) as ->.
        { unfold nwaits, tr2. rewrite count_ctrl_free_round; try done.
          - fold nwaits. rewrite Hnw by (by rewrite Hlim). lia.
          - by intros []. }
        replace (S (nwaits tr) + k)%nat with (nwaits tr + S k)%nat by lia.
        apply Hwaits; [lia|done|done].
      * intros k Hk. rewrite Hns2.
        replace (S (nsends tr) + k)%nat with (nsends tr + S k)%nat by lia.
        apply Hresp. lia.
      * exists (EvTry try (try_codes rc totalTries try)
                  :: dev ++ EvReturn true None :: evs1), evs2.
        split; [simpl; by rewrite <- (assoc_L (++))|].
        assert (∀ p, (∀ e, p e = true → is_ctrl e = false) →
                  count p (EvTry try (try_codes rc totalTries try)
                             :: dev ++ EvReturn true None :: evs1)
                  = (count p dev + count p evs1)%nat) as Hcount.
        { intros p Hp. rewrite count_cons, count_app, count_cons.
          destruct (p (EvTry _ _)) eqn:E1; [apply Hp in E1; done|].
          destruct (p (EvReturn _ _)) eqn:E2; [apply Hp in E2; done|]. lia. }
        split; [|split; [|split]].
        -- unfold ntries. rewrite count_cons, count_app, count_cons. simpl.
           rewrite (count_no_ctrl is_try dev); [|by intros []|done].
           fold ntries. lia.
        -- unfold nsends. rewrite Hcount by (by intros []).
           fold nsends. lia.
        -- intros Hlim. unfold nwaits. rewrite Hcount by (by intros []).
           fold nwaits. rewrite Hnw, Hnwa by done. lia.
        -- replace (try + Z.of_nat (S n)) with (try + 1 + Z.of_nat n) by lia.
           replace (tr ++ EvTry try (try_codes rc totalTries try)
                       :: dev ++ EvReturn true None :: evs1)
             with (tr2 ++ evs1); [done|].
           unfold tr2. rewrite <- (assoc_L (++)). simpl.
           by rewrite <- (assoc_L (++)).
Qed.

(** The last try, on a response that [do] can read. *)
Lemma run_last tr err evs resp body :
  run' totalTries tr err evs →
  wait_granted env (RateLimiter o) rq tr →
  client_Do env (nsends tr) cl rq = inl resp →
  Body resp = inl body →
  ∃ dev,
    evs = EvTry totalTries [] :: dev
            ++ [EvReturn false
                  (verdict env dest (effective_expected (ExpectedStatusCodes o))
                     (StatusCode resp) body)]
    ∧ err = wrap_error rc
              <$> verdict env dest (effective_expected (ExpectedStatusCodes o))
                    (StatusCode resp) body
    ∧ nsends dev = 1%nat
    ∧ Forall (λ e, is_ctrl e = false) dev.
Proof.
  intros Hrun Hwait Hsend Hbody.
  assert (try_codes rc totalTries totalTries = []) as Hcodes.
  { unfold try_codes. by rewrite Z.eqb_refl. }
  destruct (do_verdict_eq env cl (RateLimiter o) rq dest (ExpectedStatusCodes o) []
              (tr ++ [EvTry totalTries []]) resp body)
    as (dev & Hdo & Hns & Hctrl); [| |done|done|].
  { intros lim ctx Hlim Hctx. unfold nwaits.
    rewrite count_app, count_cons, count_nil. simpl. rewrite Nat.add_0_r.
    by apply Hwait. }
  { unfold nsends. rewrite count_app, count_cons, count_nil. simpl.
    by rewrite Nat.add_0_r. }
  rewrite <- Hclient in Hdo.
  inversion Hrun as [|? ? sr e dev' _ Hdo'|? ? dev' _ Hdo'
                     |? ? dev' ? evs' Hlt Hdo' Hrun']; simplify_eq.
  - lia.
  - rewrite Hcodes in *. rewrite Hdo in Hdo'. injection Hdo' as <- Hv Heq.
    apply app_inv_head in Heq. subst dev'. exists dev. rewrite Hv. done.
  - rewrite Hcodes in *. rewrite Hdo in Hdo'. injection Hdo' as Hv Heq.
    apply app_inv_head in Heq. subst dev'. exists dev. rewrite Hv. done.
  - lia.
Qed.

End Scenario.

(** After [cfg_attempts cfg] retry-classified responses, [exec] makes its last
    try, and returns the verdict on the response to that try. *)
Lemma exec_after_retries
    env c cl rq dest validateDest opts h tr cfg resp body :
  configured h opts = Some cfg →
  dest_accepted validateDest dest = true →
  client c = Some cl →
  0 ≤ cfg_attempts cfg < Int.MaxInt →
  waits_granted env (cfg_limiter cfg) rq tr (Z.to_nat (cfg_attempts cfg) + 1) →
  answered env cl rq tr 0 (Z.to_nat (cfg_attempts cfg))
    (λ resp _, slices_Contains (cfg_retryCodes cfg) (StatusCode resp) = true) →
  client_Do env (nsends tr + Z.to_nat (cfg_attempts cfg)) cl rq = inl resp →
  Body resp = inl body →
  ∃ h' evs,
    exec env c (Some rq) dest validateDest opts h tr
      = Some (wrap_error (loop_retry cfg)
                <$> verdict env dest (effective_expected (cfg_expected cfg))
                      (StatusCode resp) body,
              h', tr ++ evs)
    ∧ ntries evs = S (Z.to_nat (cfg_attempts cfg))
    ∧ nsends evs = S (Z.to_nat (cfg_attempts cfg)).
Proof.
  intros Hcfg Hdest Hclient Hrange Hwaits Hretry Hsend Hbody.
  destruct (exec_run env c (Some rq) dest validateDest opts h tr cfg Hcfg Hdest)
    as (l & h' & r & err & evs & _ & Hexec & Hrun).
  assert (total_tries cfg = 1 + cfg_attempts cfg) as Htotal.
  { unfold total_tries. rewrite Z.max_r by lia.
    apply Int_add_small. unfold Int.MinInt, Int.MaxInt in *. lia. }
  rewrite Htotal in Hrun.
  set (n := Z.to_nat (cfg_attempts cfg)) in *.
  destruct (run_retry_rounds env c cl rq dest (loop_options cfg r) (loop_retry cfg)
              (1 + cfg_attempts cfg) Hclient n 1 tr err evs Hrun)
    as (evs1 & evs2 & -> & Hnt & Hns & Hnw & Hrest).
  { lia. }
  { intros k lim ctx Hk. apply Hwaits. lia. }
  { done. }
  replace (1 + Z.of_nat n) with (1 + cfg_attempts cfg) in Hrest by lia.
  destruct (run_last env c cl rq dest (loop_options cfg r) (loop_retry cfg)
              (1 + cfg_attempts cfg) Hclient (tr ++ evs1) err evs2 resp body Hrest)
    as (dev & -> & -> & Hns' & Hctrl).
  { intros lim ctx Hlim Hctx. unfold nwaits. rewrite count_app.
    fold nwaits. simpl in Hnw, Hlim. rewrite Hnw by (by rewrite Hlim).
    apply Hwaits; [lia|done|done]. }
  { unfold nsends. rewrite count_app. fold nsends. by rewrite Hns. }
  { done. }
  exists h'. eexists. split; [exact Hexec|]. split.
  - unfold ntries in *.
    rewrite count_app, count_cons, count_app, count_cons, count_nil.
    rewrite (count_no_ctrl is_try dev); [|by intros []|done].
    rewrite Hnt. simpl. lia.
  - unfold nsends in *.
    rewrite count_app, count_cons, count_app, count_cons, count_nil.
    rewrite Hns, Hns'. simpl. lia.
Qed.

(** ** Messages *)

Lemma String_app_cons a s t : String a s +:+ t = String a (s +:+ t).
Proof. done. Qed.

Lemma String_app_assoc s t u : (s +:+ t) +:+ u = s +:+ t +:+ u.
Proof.
  induction s as [|a s IH]; [done|]. by rewrite !String_app_cons, IH.
Qed.

Lemma String_app_nil_r s : s +:+ "" = s.
Proof. induction s as [|a s IH]; [done|]. by rewrite String_app_cons, IH. Qed.

Lemma Contains_suffix pre s : Contains (pre +:+ s) s.
Proof. exists pre, ""%string. by rewrite String_app_nil_r. Qed.

Lemma Contains_app_l pre s sub : Contains s sub → Contains (pre +:+ s) sub.
Proof.
  intros (p & q & ->). exists (pre +:+ p), q. by rewrite String_app_assoc.
Qed.

(** The message of an exhausted retry holds the words "retries exhausted" and
    the body text of the unexpected status it wraps. *)
Lemma Error_RetriesExhausted_body n expected got text :
  Contains (Error (RetriesExhausted n (UnexpectedStatus expected got text))) text
  ∧ Contains (Error (RetriesExhausted n (UnexpectedStatus expected got text)))
      "retries exhausted".
Proof.
  split.
  - cbn [Error]. do 7 apply Contains_app_l. apply Contains_suffix.
  - cbn [Error]. exists ""%string. eexists. reflexivity.
Qed.

(** ** The attempt loop: exhausted retries and recovery *)

(** C1, as amended: in every call of [exec], each try [k] lies between 1 and
    [totalTries] (which is [1 + attempts] for attempts from 0 up to, but not
    including, the largest [int]), and [do] gets the configured retry codes
    on it, except on try [totalTries], where it gets none.
    Consequently, when the call passes the destination check, the configured
    attempts are positive (and below the largest [int]), the limiter grants
    every wait, and every send is answered by a response that can be read and
    whose status is one of the retry codes, the last one's status not being
    an expected one, then there are exactly [1 + attempts] tries and as many
    sends, and [exec] returns [RetriesExhausted] with the attempts and, as
    its cause, the [UnexpectedStatus] of the last response, whose message
    ends with the diagnostic text of the last body. *)
Theorem retries_exhausted env c req dest validateDest opts h tr cfg :
  configured h opts = Some cfg →
  ∃ err h' evs,
    exec env c req dest validateDest opts h tr = Some (err, h', tr ++ evs)
    ∧ (∀ k codes,
         EvTry k codes ∈ evs →
         1 ≤ k ≤ total_tries cfg
         ∧ codes = if k =? total_tries cfg then [] else cfg_retryCodes cfg)
    ∧ (0 ≤ cfg_attempts cfg < Int.MaxInt →
       total_tries cfg = 1 + cfg_attempts cfg)
    ∧ (∀ cl rq,
         dest_accepted validateDest dest = true →
         client c = Some cl → req = Some rq →
         0 < cfg_attempts cfg < Int.MaxInt →
         waits_granted env (cfg_limiter cfg) rq tr
           (Z.to_nat (cfg_attempts cfg) + 1) →
         answered env cl rq tr 0 (Z.to_nat (cfg_attempts cfg) + 1)
           (λ resp _,
              slices_Contains (cfg_retryCodes cfg) (StatusCode resp) = true) →
         answered env cl rq tr (Z.to_nat (cfg_attempts cfg)) 1
           (λ resp _,
              slices_Contains (effective_expected (cfg_expected cfg))
                (StatusCode resp) = false) →
         Z.of_nat (ntries evs) = 1 + cfg_attempts cfg
         ∧ Z.of_nat (nsends evs) = 1 + cfg_attempts cfg
         ∧ ∃ resp body,
             client_Do env (nsends tr + Z.to_nat (cfg_attempts cfg)) cl rq
               = inl resp
             ∧ Body resp = inl body
             ∧ err = Some (RetriesExhausted (cfg_attempts cfg)
                             (UnexpectedStatus
                                (effective_expected (cfg_expected cfg))
                                (StatusCode resp) (errRespBody env body)))
             ∧ ∀ e, err = Some e →
                    Contains (Error e) (errRespBody env body)
                    ∧ Contains (Error e) "retries exhausted").
Proof.
  intros Hcfg.
  assert (0 ≤ cfg_attempts cfg < Int.MaxInt →
          total_tries cfg = 1 + cfg_attempts cfg) as Htotal.
  { intros Hrange. unfold total_tries. rewrite Z.max_r by lia.
    apply Int_add_small. unfold Int.MinInt, Int.MaxInt in *. lia. }
  destruct (dest_accepted validateDest dest) eqn:Hdest.
  2:{ exists (Some (InvalidDestination (fmt_T dest))), h, [].
      rewrite app_nil_r. split; [by apply exec_rejected|].
      split; [intros k codes Hin; by apply elem_of_nil in Hin|].
      split; [done|]. intros cl rq Hacc. discriminate Hacc. }
  destruct (exec_run env c req dest validateDest opts h tr cfg Hcfg Hdest)
    as (l & h' & r & err & evs & _ & Hexec & Hrun).
  exists err, h', evs. split; [done|]. split; [|split; [done|]].
  - intros k codes Hin.
    by destruct (run_try_codes _ _ _ _ _ _ _ _ _ _ _ Hrun k codes Hin).
  - intros cl rq _ Hclient -> Hrange Hwaits Hretry Hlast.
    destruct (Hlast (Z.to_nat (cfg_attempts cfg)))
      as (resp & body & Hsend & Hbody & Hunexp); [lia|].
    destruct (exec_after_retries env c cl rq dest validateDest opts h tr cfg
                resp body Hcfg Hdest Hclient)
      as (h'' & evs' & Hexec' & Hnt & Hns); [lia|done| |done|done|].
    { intros k Hk. apply Hretry. lia. }
    rewrite Hexec in Hexec'. injection Hexec' as -> _ Hevs.
    apply app_inv_head in Hevs. subst evs'.
    split; [lia|]. split; [lia|].
    exists resp, body. split; [done|]. split; [done|].
    unfold verdict. rewrite Hunexp. simpl. rewrite wrap_error_loop_retry.
    destruct (Z.ltb_spec 0 (cfg_attempts cfg)); [|lia].
    split; [done|]. intros e [= <-]. apply Error_RetriesExhausted_body.
Qed.

Lemma retries_exhausted_witness :
  ∃ err h' evs,
    exec (Sample.world (Sample.always 503 Sample.body_still_down)) Sample.c
      (Some Sample.get) DestNil false (Some 1%positive)
      (Sample.store [200] 2 [503] None) []
      = Some (err, h', [] ++ evs)
    ∧ Z.of_nat (ntries evs) = 1 + 2
    ∧ Z.of_nat (nsends evs) = 1 + 2
    ∧ ∀ e, err = Some e →
           Contains (Error e)
             (errRespBody (Sample.world (Sample.always 503 Sample.body_still_down))
                Sample.body_still_down)
           ∧ Contains (Error e) "retries exhausted".
Proof.
  destruct (retries_exhausted
              (Sample.world (Sample.always 503 Sample.body_still_down)) Sample.c
              (Some Sample.get) DestNil false (Some 1%positive)
              (Sample.store [200] 2 [503] None) []
              (mkConfig [200] 2 [503] None) eq_refl)
    as (err & h' & evs & Hexec & _ & _ & Hall).
  exists err, h', evs. split; [exact Hexec|].
  destruct (Hall (HTTPClient 1) Sample.get eq_refl eq_refl eq_refl)
    as (Hnt & Hns & resp & body & Hsend & Hbody & _ & Hmsg).
  - unfold Int.MaxInt. simpl. lia.
  - intros k lim ctx _ Hlim. discriminate Hlim.
  - intros k _. eexists _, _. repeat split.
  - intros k _. eexists _, _. repeat split.
  - split; [exact Hnt|]. split; [exact Hns|].
    injection Hsend as <-. injection Hbody as <-. exact Hmsg.
Defined.

(** C1, as stated, fails in two ways.  With 0 attempts the error of the only
    try is returned as it is, not as a [RetriesExhausted].  And when the
    retry-classified status is also an expected one, the last try succeeds:
    there is no error at all. *)
Lemma retry_classified_without_exhaustion :
  (slices_Contains [503] 503 = true
   ∧ ∃ h' tr',
       exec (Sample.world (Sample.always 503 Sample.body_plain)) Sample.c
         (Some Sample.get) DestNil false (Some 1%positive)
         (Sample.store [200] 0 [503] None) []
       = Some (Some (UnexpectedStatus [200] 503 Sample.body_plain), h', tr'))
  ∧ (slices_Contains [200] 200 = true
     ∧ ∃ h' tr',
         exec (Sample.world (Sample.always 200 Sample.body_ok)) Sample.c
           (Some Sample.get) DestNil false (Some 1%positive)
           (Sample.store [200] 1 [200] None) []
         = Some (None, h', tr')
         ∧ ntries tr' = 2%nat).
Proof.
  split; (split; [reflexivity|]); eexists _, _; vm_compute; try split; reflexivity.
Qed.

(** C2, as amended: for every call of [exec] that passes the destination check,
    with a client and positive configured attempts [N] (below the largest
    [int]), if the limiter grants every wait, the first [N] sends are
    answered by responses that can be read and whose status is one of the
    retry codes, and send [N + 1] is answered by a response that can be read,
    whose status is an expected one and whose body decodes into the
    destination when there is one, then [exec] makes exactly [N + 1] tries,
    sends the request exactly [N + 1] times and returns no error. *)
Theorem retries_then_success
    env c cl rq dest validateDest opts h tr cfg :
  configured h opts = Some cfg →
  dest_accepted validateDest dest = true →
  client c = Some cl →
  0 < cfg_attempts cfg < Int.MaxInt →
  waits_granted env (cfg_limiter cfg) rq tr (Z.to_nat (cfg_attempts cfg) + 1) →
  answered env cl rq tr 0 (Z.to_nat (cfg_attempts cfg))
    (λ resp _, slices_Contains (cfg_retryCodes cfg) (StatusCode resp) = true) →
  answered env cl rq tr (Z.to_nat (cfg_attempts cfg)) 1
    (λ resp body,
       slices_Contains (effective_expected (cfg_expected cfg)) (StatusCode resp)
         = true
       ∧ (Dest_is_nil dest = true ∨ json_Unmarshal env body dest = None)) →
  ∃ h' evs,
    exec env c (Some rq) dest validateDest opts h tr = Some (None, h', tr ++ evs)
    ∧ Z.of_nat (nsends evs) = cfg_attempts cfg + 1
    ∧ Z.of_nat (ntries evs) = cfg_attempts cfg + 1.
Proof.
  intros Hcfg Hdest Hclient Hrange Hwaits Hretry Hlast.
  destruct (Hlast (Z.to_nat (cfg_attempts cfg)))
    as (resp & body & Hsend & Hbody & Hexp & Hdecode); [lia|].
  destruct (exec_after_retries env c cl rq dest validateDest opts h tr cfg
              resp body Hcfg Hdest Hclient)
    as (h' & evs & Hexec & Hnt & Hns); [lia|done|done|done|done|].
  exists h', evs. split; [|lia].
  rewrite Hexec. unfold verdict. rewrite Hexp. simpl.
  destruct Hdecode as [->| ->]; [done|]. by destruct (Dest_is_nil dest).
Qed.

Lemma retries_then_success_witness :
  ∃ h' evs,
    exec (Sample.world (Sample.recovering 2 Sample.body_ok)) Sample.c
      (Some Sample.get) (DestPtr "*T" 1%positive) true (Some 1%positive)
      (Sample.store [200] 2 [503] None) []
      = Some (None, h', [] ++ evs)
    ∧ Z.of_nat (nsends evs) = 2 + 1
    ∧ Z.of_nat (ntries evs) = 2 + 1.
Proof.
  apply (retries_then_success
           (Sample.world (Sample.recovering 2 Sample.body_ok)) Sample.c
           (HTTPClient 1) Sample.get (DestPtr "*T" 1%positive) true
           (Some 1%positive) (Sample.store [200] 2 [503] None) []
           (mkConfig [200] 2 [503] None)).
  - reflexivity.
  - reflexivity.
  - reflexivity.
  - unfold Int.MaxInt. simpl. lia.
  - intros k lim ctx _ Hlim. discriminate Hlim.
  - intros k Hk. simpl in Hk.
    destruct k as [|[|k]]; [| |lia]; eexists _, _; repeat split.
  - intros k Hk. simpl in Hk.
    destruct k as [|[|[|k]]]; [lia|lia| |lia].
    eexists _, _. split; [reflexivity|]. split; [reflexivity|].
    split; [reflexivity|]. right. reflexivity.
Defined.

(** C2, as stated, fails in two ways.  With a destination, an expected status
    on the last try is not enough: a body that does not decode makes [exec]
    return an error after the [N + 1] sends.  And a retry-classified response
    whose body cannot be read ends the call with an error after one send. *)
Lemma expected_status_without_success :
  (∃ cause text h' tr',
     exec (Sample.world (Sample.recovering 1 Sample.body_plain)) Sample.c
       (Some Sample.get) (DestPtr "*T" 1%positive) true (Some 1%positive)
       (Sample.store [200] 1 [503] None) []
     = Some (Some (RetriesExhausted 1 (DecodeError cause text)), h', tr')
     ∧ nsends tr' = 2%nat)
  ∧ (∃ h' tr',
       exec (Sample.world
               (λ k, if (k <? 1)%nat
                     then inl {| StatusCode := 503;
                                 Body := inr "unexpected EOF"%string |}
                     else Sample.reply 200 Sample.body_ok))
         Sample.c (Some Sample.get) DestNil false (Some 1%positive)
         (Sample.store [200] 1 [503] None) []
       = Some (Some (RetriesExhausted 1 (External "unexpected EOF")), h', tr')
       ∧ nsends tr' = 1%nat).
Proof.
  split.
  - eexists _, _, _, _. vm_compute. split; reflexivity.
  - eexists _, _. vm_compute. split; reflexivity.
Qed.

(** ** A slip: the number of tries overflows

    [totalTries := 1 + opts.Retry.Attempts] wraps around when [Attempts] is
    the largest [int]: [totalTries] is then the smallest [int], the loop body
    never runs, and [exec] returns nil without a single try. *)
Lemma attempts_overflow :
  total_tries (mkConfig [200] Int.MaxInt [503] None) = Int.MinInt
  ∧ exec (Sample.world (Sample.always 503 Sample.body_still_down)) Sample.c
      (Some Sample.get) DestNil false (Some 1%positive)
      (Sample.store [200] Int.MaxInt [503] None) []
    = Some (None, Sample.store [200] Int.MaxInt [503] None, []).
Proof. split; vm_compute; reflexivity. Qed.

(** * Further properties *)

(** ** Tools *)


Lemma total_tries_small cfg :
  cfg_attempts cfg < Int.MaxInt →
  total_tries cfg = 1 + Z.max 0 (cfg_attempts cfg).
Proof.
  intros Hlt. unfold total_tries. apply Int_add_small.
  unfold Int.MinInt, Int.MaxInt in *. lia.
Qed.


(** The errors of [do] are of the kinds [is_do_error]. *)
Lemma do_error_is env httpClient rateLimiter req dest expected retryCodes tr sr e tr' :
  do env httpClient rateLimiter req dest expected retryCodes tr
    = ((sr, Some e), tr') →
  is_do_error e = true.
Proof.
  unfold do, do_response. intros Hdo. repeat case_match; simplify_eq; done.
Qed.

Section Segments.

Context (env : Env) (c : bHTTP) (req : option Request) (dest : Dest).
Context (o : Options) (rc : RetryConfig) (totalTries : Z).

Local Abbreviation run' := (run env c req dest o rc totalTries).
Local Abbreviation do' :=
  (do env (client c) (RateLimiter o) req dest (ExpectedStatusCodes o)).

Local Ltac dev_of Hdo Hctrl :=
  let dev' := fresh "dev'" in
  let Heq := fresh "Heq" in
  destruct (do_events _ _ _ _ _ _ _ _ _ _ Hdo) as (dev' & Heq & Hctrl & _);
  apply app_inv_head in Heq; subst dev'.

(** A property of the events of every call of [do] carries over to the
    events of a run, try by try. *)
Lemma run_segments (P Q : Trace → Prop) try tr err evs :
  (∀ codes tr0 res dev, do' codes tr0 = (res, tr0 ++ dev) → P dev) →
  Q [] →
  (∀ k codes dev sr r rest,
     P dev → Forall (λ e, is_ctrl e = false) dev → Q rest →
     Q (EvTry k codes :: dev ++ EvReturn sr r :: rest)) →
  run' try tr err evs → Q evs.
Proof.
  intros HP Hnil Hstep.
  induction 1 as [try tr Hgt|try tr sr e dev Hle Hdo|try tr dev Hle Hdo
                  |try tr dev err evs Hlt Hdo Hrun IH].
  - done.
  - pose proof (HP _ _ _ _ Hdo). dev_of Hdo Hctrl. by apply Hstep.
  - pose proof (HP _ _ _ _ Hdo). dev_of Hdo Hctrl. by apply Hstep.
  - pose proof (HP _ _ _ _ Hdo). dev_of Hdo Hctrl. by apply Hstep.
Qed.

(** The error of a run is an error of [do], passed through [wrap_error]. *)
Lemma run_error_origin (P : error → Prop) try tr x evs :
  (∀ codes tr0 sr e tr1, do' codes tr0 = ((sr, Some e), tr1) → P e) →
  run' try tr (Some x) evs →
  ∃ e, x = wrap_error rc e ∧ P e.
Proof.
  intros HP Hrun. remember (Some x) as err eqn:Herr.
  induction Hrun as [try tr Hgt|try tr sr e dev Hle Hdo|try tr dev Hle Hdo
                     |try tr dev err evs Hlt Hdo Hrun IH]; simplify_eq.
  - exists e. split; [done|]. by eapply HP.
  - by apply IH.
Qed.

(** When [do] fails on the first try of a run, that try is all there is. *)
Lemma run_first_error try tr err evs sr e dev :
  try ≤ totalTries →
  do' (try_codes rc totalTries try)
      (tr ++ [EvTry try (try_codes rc totalTries try)])
    = ((sr, Some e), (tr ++ [EvTry try (try_codes rc totalTries try)]) ++ dev) →
  run' try tr err evs →
  err = Some (wrap_error rc e)
  ∧ evs = EvTry try (try_codes rc totalTries try)
            :: dev ++ [EvReturn sr (Some e)].
Proof.
  intros Hle Hdo Hrun.
  inversion Hrun as [|? ? sr' e' dev' _ Hdo'|? ? dev' _ Hdo'
                     |? ? dev' ? evs' _ Hdo' _]; simplify_eq.
  - lia.
  - rewrite Hdo in Hdo'. injection Hdo' as <- <- Heq.
    apply app_inv_head in Heq. by subst dev'.
  - rewrite Hdo in Hdo'. simplify_eq.
  - rewrite Hdo in Hdo'. simplify_eq.
Qed.

End Segments.

(** ** Instances and their client *)

Lemma do_client_error env cl rateLimiter req dest expected retryCodes tr sr e tr' :
  do env (Some cl) rateLimiter req dest expected retryCodes tr
    = ((sr, Some e), tr') →
  is_do_error e = true ∧ e ≠ errors_New "nil http client"
  ∧ Unwrap e ≠ Some (errors_New "nil http client").
Proof.
  intros Hdo. split; [by eapply do_error_is|].
  unfold do, do_response in Hdo. repeat case_match; simplify_eq; done.
Qed.

(** X1: [NewWithClient] keeps the client it is given and falls back to
    [http.DefaultClient] for nil, and [New] uses [http.DefaultClient]; so as
    long as [http.DefaultClient] is not nil, an instance has a client, and no
    call on it returns the "nil http client" error, bare or wrapped. *)
Theorem constructed_instance_has_client
    env DefaultClient given req dest validateDest opts h tr cfg :
  is_Some DefaultClient →
  configured h opts = Some cfg →
  bHTTP_Client (NewWithClient DefaultClient given)
    = match given with Some cl => Some cl | None => DefaultClient end
  ∧ bHTTP_Client (New DefaultClient) = DefaultClient
  ∧ is_Some (bHTTP_Client (NewWithClient DefaultClient given))
  ∧ ∃ err h' evs,
      exec env (NewWithClient DefaultClient given) req dest validateDest opts h tr
        = Some (err, h', tr ++ evs)
      ∧ ∀ e, err = Some e →
             e ≠ errors_New "nil http client"
             ∧ Unwrap e ≠ Some (errors_New "nil http client").
Proof.
  intros [dc ->] Hcfg.
  split; [by destruct given|]. split; [done|].
  assert (∃ cl, client (NewWithClient (Some dc) given) = Some cl) as [cl Hcl].
  { destruct given; simpl; eauto. }
  split; [unfold bHTTP_Client; rewrite Hcl; eauto|].
  destruct (dest_accepted validateDest dest) eqn:Hdest.
  - destruct (exec_run env (NewWithClient (Some dc) given) req dest validateDest
                opts h tr cfg Hcfg Hdest)
      as (l & h' & r & err & evs & _ & Hexec & Hrun).
    exists err, h', evs. split; [done|]. intros x ->.
    destruct (run_error_origin _ _ _ _ _ _ _
                (λ e, is_do_error e = true ∧ e ≠ errors_New "nil http client"
                      ∧ Unwrap e ≠ Some (errors_New "nil http client"))
                _ _ _ _
                ltac:(intros codes tr0 sr e tr1; rewrite Hcl;
                      apply do_client_error) Hrun)
      as (e & -> & Hkind & Hne & Hun).
    unfold wrap_error. destruct (0 <? Attempts (loop_retry cfg)).
    + split; [discriminate|]. simpl. congruence.
    + done.
  - exists (Some (InvalidDestination (fmt_T dest))), h, [].
    rewrite app_nil_r. split; [by apply exec_rejected|]. by intros e [= <-].
Qed.

Lemma constructed_instance_has_client_witness :
  bHTTP_Client (NewWithClient (Some (HTTPClient 1)) None) = Some (HTTPClient 1)
  ∧ bHTTP_Client (New (Some (HTTPClient 1))) = Some (HTTPClient 1)
  ∧ is_Some (bHTTP_Client (NewWithClient (Some (HTTPClient 1)) None))
  ∧ ∃ err h' evs,
      exec (Sample.world (Sample.always 503 Sample.body_plain))
        (NewWithClient (Some (HTTPClient 1)) None) (Some Sample.get) DestNil
        false None Sample.empty_store []
        = Some (err, h', [] ++ evs)
      ∧ ∀ e, err = Some e →
             e ≠ errors_New "nil http client"
             ∧ Unwrap e ≠ Some (errors_New "nil http client").
Proof.
  apply (constructed_instance_has_client
           (Sample.world (Sample.always 503 Sample.body_plain))
           (Some (HTTPClient 1)) None (Some Sample.get) DestNil false None
           Sample.empty_store [] (mkConfig [] 0 [] None)).
  - eexists. reflexivity.
  - reflexivity.
Defined.

(** ** Calls that cannot send *)

(** X2: a call without a client or without a request that passes the
    destination check (attempts below the largest [int]) makes one try, in
    which nothing is asked of the limiter or the transport, and returns the
    "nil http client" error, or else the "nil request" error, wrapped when
    attempts are configured: it is not tried again. *)
Theorem missing_client_or_request
    env c req dest validateDest opts h tr cfg :
  configured h opts = Some cfg →
  dest_accepted validateDest dest = true →
  cfg_attempts cfg < Int.MaxInt →
  client c = None ∨ req = None →
  ∃ h' codes e,
    e = errors_New match client c with
                   | Some _ => "nil request"
                   | None => "nil http client"
                   end
    ∧ exec env c req dest validateDest opts h tr
      = Some (Some (if 0 <? cfg_attempts cfg
                    then RetriesExhausted (cfg_attempts cfg) e else e),
              h', tr ++ [EvTry 1 codes; EvReturn false (Some e)]).
Proof.
  intros Hcfg Hdest Hlt Hmissing.
  destruct (exec_run env c req dest validateDest opts h tr cfg Hcfg Hdest)
    as (l & h' & r & err & evs & _ & Hexec & Hrun).
  pose proof (total_tries_small cfg Hlt) as Htotal.
  set (e := errors_New match client c with
                       | Some _ => "nil request"
                       | None => "nil http client"
                       end).
  destruct (run_first_error env c req dest (loop_options cfg r) (loop_retry cfg)
              (total_tries cfg) 1 tr err evs false e []) as [-> ->].
  - lia.
  - rewrite app_nil_r. unfold do, e.
    destruct (client c); [|done].
    destruct Hmissing as [?| ->]; done.
  - done.
  - exists h'. eexists _, e. split; [done|].
    rewrite wrap_error_loop_retry in Hexec. exact Hexec.
Qed.

Lemma missing_client_or_request_witness :
  ∃ h' codes e,
    e = errors_New match client Sample.c with
                   | Some _ => "nil request"
                   | None => "nil http client"
                   end
    ∧ exec (Sample.world (Sample.always 200 Sample.body_ok)) Sample.c None DestNil
        false (Some 1%positive) (Sample.store [200] 2 [503] None) []
      = Some (Some (if 0 <? cfg_attempts (mkConfig [200] 2 [503] None)
                    then RetriesExhausted
                           (cfg_attempts (mkConfig [200] 2 [503] None)) e
                    else e),
              h', [] ++ [EvTry 1 codes; EvReturn false (Some e)]).
Proof.
  apply (missing_client_or_request
           (Sample.world (Sample.always 200 Sample.body_ok)) Sample.c None DestNil
           false (Some 1%positive) (Sample.store [200] 2 [503] None) []
           (mkConfig [200] 2 [503] None)).
  - reflexivity.
  - reflexivity.
  - unfold Int.MaxInt. simpl. lia.
  - right. reflexivity.
Defined.

(** ** Bounds *)



(** ** What one attempt asks of the collaborators *)

Lemma do_event_counts
    env httpClient rateLimiter req dest expected retryCodes tr res tr' :
  do env httpClient rateLimiter req dest expected retryCodes tr = (res, tr') →
  ∃ dev,
    tr' = tr ++ dev
    ∧ count is_close dev = count is_readall dev
    ∧ (count is_readall dev ≤ count is_send dev)%nat
    ∧ (count is_wait dev ≤ 1)%nat
    ∧ (rateLimiter = None → count is_wait dev = 0%nat)
    ∧ (is_Some rateLimiter → count is_send dev ≤ count is_wait dev)%nat
    ∧ (is_Some rateLimiter → is_Some httpClient → is_Some req →
       count is_wait dev = 1%nat)
    ∧ (Dest_is_nil dest = true → count is_unmarshal dev = 0%nat).
Proof.
  unfold do, do_response, errRespBody_events. intros Hdo.
  destruct httpClient as [cl|], req as [rq|]; simplify_eq;
    try (exists []; rewrite app_nil_r; repeat split; try done;
         intros; repeat match goal with H : is_Some None |- _ =>
                          destruct H; discriminate end;
         first [done | vm_compute; lia]).
  destruct (Request_Context_Some rq) as [ctx Hctx]. rewrite Hctx in Hdo.
  destruct rateLimiter as [lim|]; simpl in Hdo;
    repeat case_match; simplify_eq;
    repeat rewrite <- (assoc_L (++));
    (eexists; split; [reflexivity|]);
    repeat split; intros; try (vm_compute; first [done | lia]); try congruence;
    repeat match goal with H : is_Some None |- _ =>
             destruct H; discriminate end.
Qed.

Section Counts.

Context (env : Env) (c : bHTTP) (req : option Request) (dest : Dest).
Context (o : Options) (rc : RetryConfig) (totalTries : Z).

Local Abbreviation run' := (run env c req dest o rc totalTries).

Local Lemma count_segment p k codes (dev : Trace) sr r rest :
  Forall (λ e, is_ctrl e = false) dev →
  (∀ e, p e = true → is_ctrl e = false) →
  count p (EvTry k codes :: dev ++ EvReturn sr r :: rest)
  = (count p dev + count p rest)%nat.
Proof.
  intros _ Hp. rewrite count_cons, count_app, count_cons.
  destruct (p (EvTry _ _)) eqn:E1; [apply Hp in E1; done|].
  destruct (p (EvReturn _ _)) eqn:E2; [apply Hp in E2; done|]. lia.
Qed.



(** Without a destination nothing is decoded into one. *)
Lemma run_no_unmarshal try tr err evs :
  Dest_is_nil dest = true →
  run' try tr err evs → count is_unmarshal evs = 0%nat.
Proof.
  intros Hnil Hrun.
  refine (run_segments env c req dest o rc totalTries
            (λ dev, count is_unmarshal dev = 0%nat)
            (λ evs, count is_unmarshal evs = 0%nat)
            try tr err evs _ _ _ Hrun).
  - intros codes tr0 res dev Hdo.
    destruct (do_event_counts _ _ _ _ _ _ _ _ _ _ Hdo)
      as (dev' & Heq & _ & _ & _ & _ & _ & _ & Hun).
    apply app_inv_head in Heq. subst dev'. by apply Hun.
  - done.
  - intros k codes dev sr r rest Hdev Hctrl IH.
    rewrite count_segment by (done || by intros []). lia.
Qed.

End Counts.





Lemma do_nil_dest_error
    env httpClient rateLimiter req dest expected retryCodes tr sr e tr' :
  Dest_is_nil dest = true →
  do env httpClient rateLimiter req dest expected retryCodes tr
    = ((sr, Some e), tr') →
  ∀ cause text, e ≠ DecodeError cause text.
Proof.
  unfold do, do_response. intros Hnil Hdo cause text ->.
  repeat case_match; simplify_eq.
Qed.

(** X6: the methods without a destination, [Do] and [DoWithOptions], never
    call [json.Unmarshal] on a destination, and the error they return, bare
    or wrapped, is never the destination error or a decode error. *)
Theorem no_destination_no_decode env c req opts h tr cfg :
  configured h opts = Some cfg →
  ∃ err h' evs,
    DoWithOptions env c req opts h tr = Some (err, h', tr ++ evs)
    ∧ count is_unmarshal evs = 0%nat
    ∧ ∀ e, err = Some e →
        ∃ e', (e = e' ∨ e = RetriesExhausted (cfg_attempts cfg) e')
              ∧ is_do_error e' = true
              ∧ ∀ cause text, e' ≠ DecodeError cause text.
Proof.
  intros Hcfg. unfold DoWithOptions.
  destruct (exec_run env c req DestNil false opts h tr cfg Hcfg eq_refl)
    as (l & h' & r & err & evs & _ & Hexec & Hrun).
  exists err, h', evs. split; [done|].
  split.
  { apply (run_no_unmarshal env c req DestNil (loop_options cfg r)
             (loop_retry cfg) (total_tries cfg) 1 tr err evs); done. }
  intros x ->.
  destruct (run_error_origin _ _ _ _ _ _ _
              (λ e, is_do_error e = true ∧ ∀ cause text, e ≠ DecodeError cause text)
              _ _ _ _
              ltac:(intros codes tr0 sr e tr1 Hdo; split;
                    [by eapply do_error_is
                    |by eapply (do_nil_dest_error _ _ _ _ DestNil)]) Hrun)
    as (e & -> & Hkind & Hne).
  exists e. rewrite wrap_error_loop_retry.
  destruct (0 <? cfg_attempts cfg); auto.
Qed.

Lemma no_destination_no_decode_witness :
  ∃ err h' evs,
    DoWithOptions (Sample.world (Sample.always 200 Sample.body_plain)) Sample.c
      (Some Sample.get) (Some 1%positive) (Sample.store [200] 2 [503] None) []
      = Some (err, h', [] ++ evs)
    ∧ count is_unmarshal evs = 0%nat
    ∧ ∀ e, err = Some e →
        ∃ e', (e = e'
               ∨ e = RetriesExhausted
                       (cfg_attempts (mkConfig [200] 2 [503] None)) e')
              ∧ is_do_error e' = true
              ∧ ∀ cause text, e' ≠ DecodeError cause text.
Proof.
  apply (no_destination_no_decode
           (Sample.world (Sample.always 200 Sample.body_plain)) Sample.c
           (Some Sample.get) (Some 1%positive) (Sample.store [200] 2 [503] None)
           [] (mkConfig [200] 2 [503] None)).
  reflexivity.
Defined.

(** ** Failures on the first attempt *)

Lemma count_snoc_try p (tr : Trace) k codes :
  (∀ e, p e = true → is_ctrl e = false) →
  count p (tr ++ [EvTry k codes]) = count p tr.
Proof.
  intros Hp. rewrite count_app, count_cons, count_nil.
  destruct (p (EvTry k codes)) eqn:E; [apply Hp in E; done|]. lia.
Qed.

Lemma Contains_refl s : Contains s s.
Proof. exists ""%string, ""%string. by rewrite String_app_nil_r. Qed.

(** An error of [do] on the first try ends the call with that error. *)
Lemma exec_first_error env c req dest validateDest opts h tr cfg sr e dev :
  configured h opts = Some cfg →
  dest_accepted validateDest dest = true →
  cfg_attempts cfg < Int.MaxInt →
  (∀ codes,
     do env (client c) (cfg_limiter cfg) req dest (cfg_expected cfg) codes
        (tr ++ [EvTry 1 codes])
     = ((sr, Some e), (tr ++ [EvTry 1 codes]) ++ dev)) →
  ∃ h' codes,
    exec env c req dest validateDest opts h tr
      = Some (Some (if 0 <? cfg_attempts cfg
                    then RetriesExhausted (cfg_attempts cfg) e else e),
              h', tr ++ EvTry 1 codes :: dev ++ [EvReturn sr (Some e)]).
Proof.
  intros Hcfg Hdest Hlt Hdo.
  destruct (exec_run env c req dest validateDest opts h tr cfg Hcfg Hdest)
    as (l & h' & r & err & evs & _ & Hexec & Hrun).
  pose proof (total_tries_small cfg Hlt) as Htotal.
  destruct (run_first_error env c req dest (loop_options cfg r) (loop_retry cfg)
              (total_tries cfg) 1 tr err evs sr e dev) as [-> ->].
  - lia.
  - apply Hdo.
  - done.
  - exists h'. eexists. rewrite wrap_error_loop_retry in Hexec. exact Hexec.
Qed.

(** X7: an error of the transport is returned at once and never retried,
    whatever retries are configured: when the first send fails, the call has
    made one try and one send, has read and closed nothing, and returns the
    transport's error, wrapped as [RetriesExhausted] with the configured
    attempts when these are positive although no retry took place; its
    message ends with the transport's message. *)
Theorem transport_error_not_retried
    env c cl rq dest validateDest opts h tr cfg msg :
  configured h opts = Some cfg →
  dest_accepted validateDest dest = true →
  cfg_attempts cfg < Int.MaxInt →
  client c = Some cl →
  wait_granted env (cfg_limiter cfg) rq tr →
  client_Do env (nsends tr) cl rq = inr msg →
  ∃ h' codes err,
    exec env c (Some rq) dest validateDest opts h tr
      = Some (Some err, h',
              tr ++ EvTry 1 codes
                 :: (wait_events (cfg_limiter cfg) ++ [EvSend])
                 ++ [EvReturn false (Some (External msg))])
    ∧ err = (if 0 <? cfg_attempts cfg
             then RetriesExhausted (cfg_attempts cfg) (External msg)
             else External msg)
    ∧ Contains (Error err) msg.
Proof.
  intros Hcfg Hdest Hlt Hclient Hwait Hsend.
  destruct (exec_first_error env c (Some rq) dest validateDest opts h tr cfg
              false (External msg) (wait_events (cfg_limiter cfg) ++ [EvSend])
              Hcfg Hdest Hlt)
    as (h' & codes & Hexec).
  - intros codes. rewrite Hclient. unfold do.
    destruct (Request_Context_Some rq) as [ctx Hctx]. rewrite Hctx.
    assert (nwaits (tr ++ [EvTry 1 codes]) = nwaits tr) as Hnw
      by (apply count_snoc_try; by intros []).
    assert (nsends (tr ++ [EvTry 1 codes]) = nsends tr) as Hns
      by (apply count_snoc_try; by intros []).
    destruct (cfg_limiter cfg) as [lim|] eqn:Hlim; simpl.
    + rewrite Hnw, (Hwait lim ctx eq_refl Hctx).
      replace (nsends ((tr ++ [EvTry 1 codes]) ++ [EvWait])) with (nsends tr).
      * rewrite Hsend. by rewrite <- (assoc_L (++)).
      * unfold nsends in *. rewrite count_app, Hns.
        vm_compute (count _ [_]). lia.
    + by rewrite Hns, Hsend.
  - exists h', codes. eexists. split; [exact Hexec|]. split; [done|].
    destruct (0 <? cfg_attempts cfg); cbn [Error].
    + do 3 apply Contains_app_l. apply Contains_refl.
    + apply Contains_refl.
Qed.

Lemma transport_error_not_retried_witness :
  ∃ h' codes err,
    exec (Sample.world (λ _, inr "transport boom"%string)) Sample.c
      (Some Sample.get) DestNil false (Some 1%positive)
      (Sample.store [200] 2 [503] None) []
      = Some (Some err, h',
              [] ++ EvTry 1 codes
                 :: (wait_events None ++ [EvSend])
                 ++ [EvReturn false (Some (External "transport boom"))])
    ∧ err = (if 0 <? 2
             then RetriesExhausted 2 (External "transport boom")
             else External "transport boom")
    ∧ Contains (Error err) "transport boom".
Proof.
  apply (transport_error_not_retried
           (Sample.world (λ _, inr "transport boom"%string)) Sample.c
           (HTTPClient 1) Sample.get DestNil false (Some 1%positive)
           (Sample.store [200] 2 [503] None) [] (mkConfig [200] 2 [503] None)
           "transport boom"%string).
  - reflexivity.
  - reflexivity.
  - unfold Int.MaxInt. simpl. lia.
  - reflexivity.
  - intros lim ctx Hlim. discriminate Hlim.
  - reflexivity.
Defined.

(** X8: when the limiter gives up the wait of the first try, the whole call
    sends nothing: it has made one try and one wait, and returns the "rate
    limiter wait failed" error around the limiter's error, wrapped when
    attempts are configured. *)
Theorem limiter_failure_sends_nothing
    env c cl rq ctx lim dest validateDest opts h tr cfg cause :
  configured h opts = Some cfg →
  dest_accepted validateDest dest = true →
  cfg_attempts cfg < Int.MaxInt →
  client c = Some cl →
  cfg_limiter cfg = Some lim →
  Request_Context rq = Some ctx →
  limiter_Wait env (nwaits tr) lim ctx = Some cause →
  ∃ h' evs err,
    exec env c (Some rq) dest validateDest opts h tr = Some (Some err, h', tr ++ evs)
    ∧ err = (if 0 <? cfg_attempts cfg
             then RetriesExhausted (cfg_attempts cfg)
                    (RateLimitWaitFailed (External cause))
             else RateLimitWaitFailed (External cause))
    ∧ nsends evs = 0%nat ∧ nwaits evs = 1%nat ∧ ntries evs = 1%nat.
Proof.
  intros Hcfg Hdest Hlt Hclient Hlim Hctx Hwait.
  destruct (exec_first_error env c (Some rq) dest validateDest opts h tr cfg
              false (RateLimitWaitFailed (External cause)) [EvWait]
              Hcfg Hdest Hlt)
    as (h' & codes & Hexec).
  - intros codes. rewrite Hclient, Hlim. unfold do. rewrite Hctx. simpl.
    assert (nwaits (tr ++ [EvTry 1 codes]) = nwaits tr) as ->
      by (apply count_snoc_try; by intros []).
    by rewrite Hwait.
  - exists h'. eexists _, _. split; [exact Hexec|]. split; [done|].
    by vm_compute.
Qed.

Lemma limiter_failure_sends_nothing_witness :
  ∃ h' evs err,
    exec (Sample.world (Sample.always 200 Sample.body_ok)) Sample.c
      (Some Sample.get_cancelled) DestNil false (Some 1%positive)
      (Sample.store_no_retry [] (Some (RateLimiter_at 1%positive))) []
      = Some (Some err, h', [] ++ evs)
    ∧ err = (if 0 <? 0
             then RetriesExhausted 0
                    (RateLimitWaitFailed (External "context canceled"))
             else RateLimitWaitFailed (External "context canceled"))
    ∧ nsends evs = 0%nat ∧ nwaits evs = 1%nat ∧ ntries evs = 1%nat.
Proof.
  apply (limiter_failure_sends_nothing
           (Sample.world (Sample.always 200 Sample.body_ok)) Sample.c
           (HTTPClient 1) Sample.get_cancelled
           {| ctx_Err := Some "context canceled"%string |}
           (RateLimiter_at 1%positive) DestNil false (Some 1%positive)
           (Sample.store_no_retry [] (Some (RateLimiter_at 1%positive))) []
           (mkConfig [] 0 [] (Some (RateLimiter_at 1%positive)))
           "context canceled"%string).
  - reflexivity.
  - reflexivity.
  - unfold Int.MaxInt. simpl. lia.
  - reflexivity.
  - reflexivity.
  - reflexivity.
  - reflexivity.
Defined.

(** ** What a nil error means *)

Lemma do_success_inv env httpClient rateLimiter req dest expected retryCodes tr tr' :
  do env httpClient rateLimiter req dest expected retryCodes tr
    = ((false, None), tr') →
  ∃ cl rq resp body,
    httpClient = Some cl ∧ req = Some rq
    ∧ client_Do env (nsends tr) cl rq = inl resp
    ∧ Body resp = inl body
    ∧ slices_Contains (effective_expected expected) (StatusCode resp) = true
    ∧ (Dest_is_nil dest = true ∨ json_Unmarshal env body dest = None)
    ∧ nsends tr' = S (nsends tr).
Proof.
  intros Hdo.
  destruct httpClient as [cl|]; [|unfold do in Hdo; simplify_eq].
  destruct req as [rq|]; [|unfold do in Hdo; simplify_eq].
  exists cl, rq.
  assert (wait_granted env rateLimiter rq tr) as Hwait.
  { intros lim ctx -> Hctx. unfold do in Hdo. rewrite Hctx in Hdo.
    simpl in Hdo. by destruct (limiter_Wait env (nwaits tr) lim ctx). }
  destruct (client_Do env (nsends tr) cl rq) as [resp|msg] eqn:Hsend.
  2:{ unfold do in Hdo. destruct (Request_Context_Some rq) as [ctx Hctx].
      rewrite Hctx in Hdo. destruct rateLimiter as [lim|]; simpl in Hdo.
      - rewrite (Hwait lim ctx eq_refl Hctx) in Hdo.
        replace (nsends (tr ++ [EvWait])) with (nsends tr) in Hdo
          by (symmetry; apply (nsends_wait_events tr (Some lim))).
        rewrite Hsend in Hdo. simplify_eq.
      - rewrite Hsend in Hdo. simplify_eq. }
  rewrite (do_response_eq _ _ _ _ _ _ _ _ resp Hwait Hsend) in Hdo.
  exists resp. unfold do_response in Hdo.
  destruct (Body resp) as [body|] eqn:Hbody; [|simplify_eq].
  exists body.
  destruct (slices_Contains retryCodes (StatusCode resp)); [simplify_eq|].
  destruct (slices_Contains (effective_expected expected) (StatusCode resp))
    eqn:Hexp; [|simplify_eq].
  simpl in Hdo. split; [done|]. split; [done|]. split; [done|].
  split; [done|]. split; [done|].
  assert (∀ evs, count is_send evs = 0%nat →
            nsends ((((tr ++ wait_events rateLimiter ++ [EvSend]) ++ [EvReadAll])
                       ++ errRespBody_events env body) ++ evs)
            = S (nsends tr)) as Hcount.
  { intros evs Hevs. unfold nsends. rewrite !count_app, Hevs.
    assert (count is_send (errRespBody_events env body) = 0%nat) as ->
      by (unfold errRespBody_events;
          destruct (json_Unmarshal_any env body); reflexivity).
    destruct rateLimiter; vm_compute (count _ (wait_events _));
      vm_compute (count _ [_]); lia. }
  destruct (Dest_is_nil dest) eqn:Hnil.
  - simplify_eq. split; [by left|].
    rewrite <- (assoc_L (++) _ _ [EvClose]). rewrite (assoc_L (++)).
    by apply Hcount.
  - destruct (json_Unmarshal env body dest) eqn:Hdec; simplify_eq.
    split; [by right|].
    rewrite <- (assoc_L (++) _ [EvUnmarshal] [EvClose]). by apply Hcount.
Qed.

(** A run that makes a try and returns no error ends with a response whose
    status is expected and whose body decodes, if there is a destination. *)
Lemma run_success env c req dest o rc totalTries try tr err evs :
  run env c req dest o rc totalTries try tr err evs →
  err = None → try ≤ totalTries →
  ∃ cl rq resp body,
    client c = Some cl ∧ req = Some rq
    ∧ (0 < nsends evs)%nat
    ∧ client_Do env (nsends (tr ++ evs) - 1) cl rq = inl resp
    ∧ Body resp = inl body
    ∧ slices_Contains (effective_expected (ExpectedStatusCodes o))
        (StatusCode resp) = true
    ∧ (Dest_is_nil dest = true ∨ json_Unmarshal env body dest = None).
Proof.
  induction 1 as [try tr Hgt|try tr sr e dev Hle Hdo|try tr dev Hle Hdo
                  |try tr dev err evs Hlt Hdo Hrun IH]; intros Herr Hbound.
  - lia.
  - done.
  - destruct (do_success_inv _ _ _ _ _ _ _ _ _ Hdo)
      as (cl & rq & resp & body & Hc & Hr & Hsend & Hbody & Hexp & Hdec & Hns).
    exists cl, rq, resp, body.
    assert (nsends (tr ++ [EvTry try (try_codes rc totalTries try)]) = nsends tr)
      as Hshift by (apply count_snoc_try; by intros []).
    rewrite Hshift in Hsend, Hns.
    assert (nsends dev = 1%nat) as Hdev.
    { unfold nsends in *. rewrite !count_app in Hns.
      rewrite count_cons, count_nil in Hns. simpl in Hns. lia. }
    assert (nsends (tr ++ EvTry try (try_codes rc totalTries try)
                       :: dev ++ [EvReturn false None]) = S (nsends tr)) as Hall.
    { unfold nsends in *.
      rewrite count_app, count_cons, count_app, count_cons, count_nil.
      simpl. lia. }
    rewrite Hall. replace (S (nsends tr) - 1)%nat with (nsends tr) by lia.
    repeat split; try done.
    unfold nsends in *. rewrite count_cons, count_app. simpl. lia.
  - destruct (IH Herr) as
      (cl & rq & resp & body & Hc & Hr & Hpos & Hsend & Hbody & Hexp & Hdec);
      [lia|].
    exists cl, rq, resp, body.
    replace (tr ++ EvTry try (try_codes rc totalTries try)
                :: dev ++ EvReturn true None :: evs)
      with ((tr ++ EvTry try (try_codes rc totalTries try)
                :: dev ++ [EvReturn true None]) ++ evs).
    2:{ rewrite <- (assoc_L (++)). simpl. by rewrite <- (assoc_L (++)). }
    repeat split; try done.
    unfold nsends in *. rewrite count_cons, count_app, count_cons. lia.
Qed.

(** X9: a nil error is earned.  When a call with attempts below the largest
    [int] returns no error, the destination check was passed, the request
    was sent, and the last response could be read, has an expected status
    (200 when none is configured) and, if there is a destination, its body
    was decoded into it without error. *)
Theorem nil_error_means_expected_response
    env c req dest validateDest opts h tr cfg h' tr' :
  configured h opts = Some cfg →
  cfg_attempts cfg < Int.MaxInt →
  exec env c req dest validateDest opts h tr = Some (None, h', tr') →
  dest_accepted validateDest dest = true
  ∧ ∃ cl rq resp body,
      client c = Some cl ∧ req = Some rq
      ∧ (nsends tr < nsends tr')%nat
      ∧ client_Do env (nsends tr' - 1) cl rq = inl resp
      ∧ Body resp = inl body
      ∧ slices_Contains (effective_expected (cfg_expected cfg))
          (StatusCode resp) = true
      ∧ (Dest_is_nil dest = true ∨ json_Unmarshal env body dest = None).
Proof.
  intros Hcfg Hlt Hexec.
  destruct (dest_accepted validateDest dest) eqn:Hdest.
  2:{ rewrite exec_rejected in Hexec by done. simplify_eq. }
  split; [done|].
  destruct (exec_run env c req dest validateDest opts h tr cfg Hcfg Hdest)
    as (l & h'' & r & err & evs & _ & Hexec' & Hrun).
  rewrite Hexec in Hexec'. injection Hexec' as <- <- ->.
  pose proof (total_tries_small cfg Hlt) as Htotal.
  destruct (run_success _ _ _ _ _ _ _ _ _ _ _ Hrun eq_refl)
    as (cl & rq & resp & body & Hc & Hr & Hpos & Hsend & Hbody & Hexp & Hdec);
    [lia|].
  exists cl, rq, resp, body. repeat split; try done.
  unfold nsends in *. rewrite count_app. lia.
Qed.

Lemma nil_error_means_expected_response_witness :
  dest_accepted true (DestPtr "*T" 1%positive) = true
  ∧ ∃ cl rq resp body,
      client Sample.c = Some cl ∧ Some Sample.get = Some rq
      ∧ (nsends [] < nsends [EvTry 1 []; EvSend; EvReadAll; EvUnmarshalAny;
                             EvMarshalIndent; EvUnmarshal; EvClose;
                             EvReturn false None])%nat
      ∧ client_Do (Sample.world (Sample.always 200 Sample.body_ok))
          (nsends [EvTry 1 []; EvSend; EvReadAll; EvUnmarshalAny;
                   EvMarshalIndent; EvUnmarshal; EvClose;
                   EvReturn false None] - 1) cl rq = inl resp
      ∧ Body resp = inl body
      ∧ slices_Contains (effective_expected []) (StatusCode resp) = true
      ∧ (Dest_is_nil (DestPtr "*T" 1%positive) = true
         ∨ json_Unmarshal (Sample.world (Sample.always 200 Sample.body_ok))
             body (DestPtr "*T" 1%positive) = None).
Proof.
  apply (nil_error_means_expected_response
           (Sample.world (Sample.always 200 Sample.body_ok)) Sample.c
           (Some Sample.get) (DestPtr "*T" 1%positive) true (Some 1%positive)
           (Sample.store [] 0 [] None) [] (mkConfig [] 0 [] None)
           (Sample.store [] 0 [] None)).
  - reflexivity.
  - unfold Int.MaxInt. simpl. lia.
  - vm_compute. reflexivity.
Defined.

(** ** Normalizing twice, and nil options *)





(** ** The shape of the errors *)



(** ** The generic package-level functions *)

(** X13: [DoAndUnwrapWithOptions[T]] (and [DoAndUnwrap[T]], which calls it with
    nil options) decodes into its own variable, so its destination always
    passes the check: it returns either the address of that variable and no
    error, or no pointer and an error of [do], bare or inside one
    [RetriesExhausted]; never the destination error. *)
Theorem generic_unwrap_result env DefaultClient T t req opts h tr cfg :
  configured h opts = Some cfg →
  ∃ res h' evs,
    Package.DoAndUnwrapWithOptions env DefaultClient T t req opts h tr
      = Some (res, h', tr ++ evs)
    ∧ (res = (Some t, None)
       ∨ ∃ x e, res = (None, Some x)
                ∧ is_do_error e = true
                ∧ (x = e ∨ x = RetriesExhausted (cfg_attempts cfg) e)).
Proof.
  intros Hcfg. unfold Package.DoAndUnwrapWithOptions, DoAndUnwrapWithOptions.
  destruct (exec_run env (New DefaultClient) req (DestPtr ("*" +:+ T) t) true
              opts h tr cfg Hcfg eq_refl)
    as (l & h' & r & err & evs & _ & Hexec & Hrun).
  rewrite Hexec. simpl. destruct err as [x|].
  - exists (None, Some x), h', evs. split; [done|]. right.
    destruct (run_error_origin _ _ _ _ _ _ _ (λ e, is_do_error e = true)
                _ _ _ _
                ltac:(intros codes tr0 sr e tr1; apply do_error_is) Hrun)
      as (e & -> & Hkind).
    exists (wrap_error (loop_retry cfg) e), e. split; [done|]. split; [done|].
    rewrite wrap_error_loop_retry. destruct (0 <? cfg_attempts cfg); auto.
  - exists (Some t, None), h', evs. split; [done|]. by left.
Qed.

Lemma generic_unwrap_result_witness :
  ∃ res h' evs,
    Package.DoAndUnwrap (Sample.world (Sample.always 200 Sample.body_ok))
      (Some (HTTPClient 1)) "Resp" 7%positive (Some Sample.get)
      Sample.empty_store []
      = Some (res, h', [] ++ evs)
    ∧ (res = (Some 7%positive, None)
       ∨ ∃ x e, res = (None, Some x)
                ∧ is_do_error e = true
                ∧ (x = e
                   ∨ x = RetriesExhausted
                           (cfg_attempts (mkConfig [] 0 [] None)) e)).
Proof.
  apply (generic_unwrap_result
           (Sample.world (Sample.always 200 Sample.body_ok))
           (Some (HTTPClient 1)) "Resp" 7%positive (Some Sample.get) None
           Sample.empty_store [] (mkConfig [] 0 [] None)).
  reflexivity.
Defined.

(** ** Defaults *)

(** X14: with no expected codes and no retries configured, as in [Do], a
    call makes one try and one send, and a response that can be read is a
    success exactly when its status is 200; any other status is returned as
    the unexpected-status error against [[200]], with the diagnostic text of
    the body. *)
Theorem default_expects_200 env c cl rq opts h tr cfg resp body :
  configured h opts = Some cfg →
  cfg_expected cfg = [] →
  cfg_attempts cfg = 0 →
  client c = Some cl →
  wait_granted env (cfg_limiter cfg) rq tr →
  client_Do env (nsends tr) cl rq = inl resp →
  Body resp = inl body →
  ∃ h' evs,
    DoWithOptions env c (Some rq) opts h tr
      = Some (if StatusCode resp =? 200 then None
              else Some (UnexpectedStatus [200] (StatusCode resp)
                           (errRespBody env body)),
              h', tr ++ evs)
    ∧ ntries evs = 1%nat ∧ nsends evs = 1%nat.
Proof.
  intros Hcfg Hexp Hatt Hclient Hwait Hsend Hbody. unfold DoWithOptions.
  destruct (exec_after_retries env c cl rq DestNil false opts h tr cfg resp body
              Hcfg eq_refl Hclient)
    as (h' & evs & Hexec & Hnt & Hns).
  - rewrite Hatt. unfold Int.MaxInt. lia.
  - rewrite Hatt. intros k lim ctx Hk Hlim Hctx.
    assert (k = 0%nat) as -> by (simpl in Hk; lia).
    rewrite Nat.add_0_r. by apply Hwait.
  - rewrite Hatt. intros k Hk. simpl in Hk. lia.
  - rewrite Hatt. simpl. by rewrite Nat.add_0_r.
  - done.
  - exists h', evs. rewrite Hatt in Hnt, Hns. split; [|done].
    rewrite Hexec. f_equal. f_equal. f_equal.
    unfold verdict. rewrite Hexp. unfold effective_expected. simpl.
    rewrite orb_false_r. unfold http_StatusOK.
    destruct (StatusCode resp =? 200); simpl; [done|].
    rewrite wrap_error_loop_retry, Hatt. done.
Qed.

Lemma default_expects_200_witness :
  ∃ h' evs,
    DoWithOptions (Sample.world (Sample.always 201 Sample.body_ok)) Sample.c
      (Some Sample.get) None Sample.empty_store []
      = Some (if 201 =? 200 then None
              else Some (UnexpectedStatus [200] 201
                           (errRespBody
                              (Sample.world (Sample.always 201 Sample.body_ok))
                              Sample.body_ok)),
              h', [] ++ evs)
    ∧ ntries evs = 1%nat ∧ nsends evs = 1%nat.
Proof.
  apply (default_expects_200
           (Sample.world (Sample.always 201 Sample.body_ok)) Sample.c
           (HTTPClient 1) Sample.get None Sample.empty_store []
           (mkConfig [] 0 [] None)
           {| StatusCode := 201; Body := inl Sample.body_ok |} Sample.body_ok).
  - reflexivity.
  - reflexivity.
  - reflexivity.
  - reflexivity.
  - intros lim ctx Hlim. discriminate Hlim.
  - reflexivity.
  - reflexivity.
Defined.

(** ** Bodies that do not decode *)

(** X15: a response with an expected status whose body is not JSON, asked to
    be decoded into a destination, makes [do] fail with the decode error
    around the codec's error; the error carries the body as it was received,
    and its message holds both the codec's message and that body. *)
Theorem undecodable_body_is_reported
    env cl rateLimiter rq dest expected retryCodes tr resp body msg why :
  wait_granted env rateLimiter rq tr →
  client_Do env (nsends tr) cl rq = inl resp →
  Body resp = inl body →
  slices_Contains retryCodes (StatusCode resp) = false →
  slices_Contains (effective_expected expected) (StatusCode resp) = true →
  Dest_is_nil dest = false →
  json_Unmarshal_any env body = inr why →
  json_Unmarshal env body dest = Some msg →
  ∃ dev,
    do env (Some cl) rateLimiter (Some rq) dest expected retryCodes tr
      = ((false, Some (DecodeError (External msg) body)), tr ++ dev)
    ∧ nsends dev = 1%nat
    ∧ Contains (Error (DecodeError (External msg) body)) body
    ∧ Contains (Error (DecodeError (External msg) body)) msg.
Proof.
  intros Hwait Hsend Hbody Hretry Hexp Hnil Hparse Hdec.
  destruct (do_verdict_eq env cl rateLimiter rq dest expected retryCodes tr
              resp body Hwait Hsend Hbody Hretry)
    as (dev & Hdo & Hns & _).
  exists dev. split.
  - rewrite Hdo. unfold verdict, errRespBody.
    by rewrite Hexp, Hnil, Hdec, Hparse.
  - split; [done|]. cbn [Error]. split.
    + do 3 apply Contains_app_l. apply Contains_refl.
    + exists "fail to unmarshal response body into dest. err: "%string,
        (". body: " +:+ body). done.
Qed.

Lemma undecodable_body_is_reported_witness :
  ∃ dev,
    do (Sample.world (Sample.always 200 Sample.body_plain)) (Some (HTTPClient 1))
       None (Some Sample.get) (DestPtr "*T" 1%positive) [] [] []
      = ((false,
          Some (DecodeError
                  (External "invalid character 'p' looking for beginning of value")
                  Sample.body_plain)),
         [] ++ dev)
    ∧ nsends dev = 1%nat
    ∧ Contains
        (Error (DecodeError
                  (External "invalid character 'p' looking for beginning of value")
                  Sample.body_plain))
        Sample.body_plain
    ∧ Contains
        (Error (DecodeError
                  (External "invalid character 'p' looking for beginning of value")
                  Sample.body_plain))
        "invalid character 'p' looking for beginning of value".
Proof.
  apply (undecodable_body_is_reported
           (Sample.world (Sample.always 200 Sample.body_plain)) (HTTPClient 1)
           None Sample.get (DestPtr "*T" 1%positive) [] [] []
           {| StatusCode := 200; Body := inl Sample.body_plain |}
           Sample.body_plain
           "invalid character 'p' looking for beginning of value"%string
           "invalid character 'p' looking for beginning of value"%string).
  - intros lim ctx Hlim. discriminate Hlim.
  - reflexivity.
  - reflexivity.
  - reflexivity.
  - reflexivity.
  - reflexivity.
  - reflexivity.
  - reflexivity.
Defined.

(** ** The largest number of attempts *)

(** X16: with [Attempts] equal to the largest [int], [1 + Attempts] wraps
    around to the smallest [int]: a call that passes the destination check
    makes no try at all, asks nothing of the limiter or the transport, and
    returns nil. *)
Theorem largest_attempts_make_no_try env c req dest validateDest opts h tr cfg :
  configured h opts = Some cfg →
  dest_accepted validateDest dest = true →
  cfg_attempts cfg = Int.MaxInt →
  total_tries cfg = Int.MinInt
  ∧ ∃ h', exec env c req dest validateDest opts h tr = Some (None, h', tr).
Proof.
  intros Hcfg Hdest Hmax.
  assert (total_tries cfg = Int.MinInt) as Htotal.
  { unfold total_tries. rewrite Hmax. by vm_compute. }
  split; [done|].
  destruct (exec_run env c req dest validateDest opts h tr cfg Hcfg Hdest)
    as (l & h' & r & err & evs & _ & Hexec & Hrun).
  rewrite Htotal in Hrun. unfold Int.MinInt in Hrun.
  inversion Hrun; simplify_eq; try lia.
  exists h'. by rewrite app_nil_r in Hexec.
Qed.

Lemma largest_attempts_make_no_try_witness :
  total_tries (mkConfig [200] Int.MaxInt [503] None) = Int.MinInt
  ∧ ∃ h',
      exec (Sample.world (Sample.always 503 Sample.body_still_down)) Sample.c
        (Some Sample.get) (DestPtr "*T" 1%positive) true (Some 1%positive)
        (Sample.store [200] Int.MaxInt [503] None) []
      = Some (None, h', []).
Proof.
  apply (largest_attempts_make_no_try
           (Sample.world (Sample.always 503 Sample.body_still_down)) Sample.c
           (Some Sample.get) (DestPtr "*T" 1%positive) true (Some 1%positive)
           (Sample.store [200] Int.MaxInt [503] None) []
           (mkConfig [200] Int.MaxInt [503] None)).
  - reflexivity.
  - reflexivity.
  - reflexivity.
Defined.

(** ** Decoding happens once *)

Lemma count_zero_not_in p (l : Trace) x :
  count p l = 0%nat → p x = true → x ∉ l.
Proof.
  intros Hzero Hp Hin. induction l as [|y l IH]; [by apply elem_of_nil in Hin|].
  rewrite count_cons in Hzero.
  apply elem_of_cons in Hin as [<-|Hin].
  - rewrite Hp in Hzero. lia.
  - apply IH; [lia|done].
Qed.

Lemma do_unmarshal_once
    env httpClient rateLimiter req dest expected retryCodes tr res tr' :
  do env httpClient rateLimiter req dest expected retryCodes tr = (res, tr') →
  ∃ dev, tr' = tr ++ dev
         ∧ (count is_unmarshal dev ≤ 1)%nat
         ∧ (res.1 = true → count is_unmarshal dev = 0%nat).
Proof.
  unfold do, do_response, errRespBody_events. intros Hdo.
  repeat case_match; simplify_eq;
    repeat rewrite <- (assoc_L (++));
    (eexists; split; [first [reflexivity | symmetry; apply app_nil_r]|]);
    (split; [vm_compute; lia|intros; first [done | by vm_compute]]).
Qed.

Lemma run_unmarshal_once env c req dest o rc totalTries try tr err evs :
  run env c req dest o rc totalTries try tr err evs →
  (count is_unmarshal evs ≤ 1)%nat
  ∧ ∀ pre post, evs = pre ++ EvUnmarshal :: post → ntries post = 0%nat.
Proof.
  assert (∀ k codes (dev : Trace) sr r pre post,
            Forall (λ e, is_ctrl e = false) dev →
            EvTry k codes :: dev ++ [EvReturn sr r] = pre ++ EvUnmarshal :: post →
            ntries post = 0%nat) as Hlast.
  { intros k codes dev sr r pre post Hctrl Heq.
    destruct pre as [|e pre]; simpl in Heq; [simplify_eq|].
    injection Heq as _ Heq.
    apply (f_equal (count is_try)) in Heq.
    rewrite !count_app, !count_cons, count_nil in Heq.
    rewrite (count_no_ctrl is_try dev) in Heq; [|by intros []|done].
    simpl in Heq. unfold ntries. lia. }
  induction 1 as [try tr Hgt|try tr sr e dev Hle Hdo|try tr dev Hle Hdo
                  |try tr dev err evs Hlt Hdo Hrun IH].
  - split; [vm_compute; lia|]. intros pre post Heq. by destruct pre.
  - destruct (do_events _ _ _ _ _ _ _ _ _ _ Hdo) as (d0 & Heq0 & Hctrl & _).
    apply app_inv_head in Heq0. subst d0.
    destruct (do_unmarshal_once _ _ _ _ _ _ _ _ _ _ Hdo) as (d1 & Heq1 & Hle1 & _).
    apply app_inv_head in Heq1. subst d1. split.
    + rewrite count_cons, count_app, count_cons, count_nil. simpl. lia.
    + intros pre post Heq. by eapply Hlast.
  - destruct (do_events _ _ _ _ _ _ _ _ _ _ Hdo) as (d0 & Heq0 & Hctrl & _).
    apply app_inv_head in Heq0. subst d0.
    destruct (do_unmarshal_once _ _ _ _ _ _ _ _ _ _ Hdo) as (d1 & Heq1 & Hle1 & _).
    apply app_inv_head in Heq1. subst d1. split.
    + rewrite count_cons, count_app, count_cons, count_nil. simpl. lia.
    + intros pre post Heq. by eapply Hlast.
  - destruct (do_events _ _ _ _ _ _ _ _ _ _ Hdo) as (d0 & Heq0 & Hctrl & _).
    apply app_inv_head in Heq0. subst d0.
    destruct (do_unmarshal_once _ _ _ _ _ _ _ _ _ _ Hdo) as (d1 & Heq1 & _ & Hzero).
    apply app_inv_head in Heq1. subst d1. specialize (Hzero eq_refl).
    destruct IH as [IH1 IH2]. split.
    + rewrite count_cons, count_app, count_cons. simpl. lia.
    + intros pre post Heq.
      replace (EvTry try (try_codes rc totalTries try)
                 :: dev ++ EvReturn true None :: evs)
        with ((EvTry try (try_codes rc totalTries try)
                 :: dev ++ [EvReturn true None]) ++ evs) in Heq
        by (simpl; by rewrite <- (assoc_L (++))).
      apply app_split_not_in in Heq as (pre' & -> & Heq).
      * by eapply IH2.
      * intros Hin. apply elem_of_cons in Hin as [?|Hin]; [done|].
        apply elem_of_app in Hin as [Hin|Hin].
        -- by apply (count_zero_not_in is_unmarshal dev EvUnmarshal) in Hin.
        -- apply list_elem_of_singleton in Hin. done.
Qed.

(** X17: a call decodes into the destination at most once, and no try
    follows the decode: responses of the tries that are retried are never
    decoded into the destination. *)
Theorem destination_decoded_once env c req dest validateDest opts h tr cfg :
  configured h opts = Some cfg →
  ∃ err h' evs,
    exec env c req dest validateDest opts h tr = Some (err, h', tr ++ evs)
    ∧ (count is_unmarshal evs ≤ 1)%nat
    ∧ ∀ pre post, evs = pre ++ EvUnmarshal :: post → ntries post = 0%nat.
Proof.
  intros Hcfg. destruct (dest_accepted validateDest dest) eqn:Hdest.
  - destruct (exec_run env c req dest validateDest opts h tr cfg Hcfg Hdest)
      as (l & h' & r & err & evs & _ & Hexec & Hrun).
    exists err, h', evs. split; [done|]. by eapply run_unmarshal_once.
  - exists (Some (InvalidDestination (fmt_T dest))), h, [].
    rewrite app_nil_r. split; [by apply exec_rejected|].
    split; [vm_compute; lia|]. intros pre post Heq. by destruct pre.
Qed.

Lemma destination_decoded_once_witness :
  ∃ err h' evs,
    exec (Sample.world (Sample.recovering 2 Sample.body_ok)) Sample.c
      (Some Sample.get) (DestPtr "*T" 1%positive) true (Some 1%positive)
      (Sample.store [200] 2 [503] None) []
      = Some (err, h', [] ++ evs)
    ∧ (count is_unmarshal evs ≤ 1)%nat
    ∧ ∀ pre post, evs = pre ++ EvUnmarshal :: post → ntries post = 0%nat.
Proof.
  apply (destination_decoded_once
           (Sample.world (Sample.recovering 2 Sample.body_ok)) Sample.c
           (Some Sample.get) (DestPtr "*T" 1%positive) true (Some 1%positive)
           (Sample.store [200] 2 [503] None) [] (mkConfig [200] 2 [503] None)).
  reflexivity.
Defined.
